(** * Web3 crypto architecture comparator: a shallow embedding of [app.py]

    The script loads a fixed catalog of three proof-system records, computes a
    quality index from a record and a transaction rate with binary64
    arithmetic, assembles a summary dictionary (with a timestamp and a
    SHA-256 digest of the other fields) and prints it as text or JSON.

    Layout of this file:
    - [Binary64]: Python floats, as IEEE-754 binary64 values with
      round-to-nearest-even arithmetic on exact rationals;
    - [Py]: the pieces of the Python runtime the script calls (exceptions,
      [int / int], [min], [max], [round], [int(float)], dictionaries,
      [json.dumps], [print], [argparse]);
    - [App]: the script itself, function by function;
    - the facts proved about them: the claims of the specification first,
      then further properties of the quality index, the summary, the JSON
      text, the command line and a whole run. *)

From Stdlib Require Import ZArith QArith Qpower Qround Qabs Lqa Lia Bool List.
From Stdlib Require Import Sorting.Sorted Sorting.Permutation.
From Stdlib Require Import Strings.String Strings.Ascii Strings.Byte DecimalString.
From Stdlib Require Import Floats.SpecFloat.
Import ListNotations.

Set Implicit Arguments.

(* ================================================================== *)
(** ** Binary64 floating point *)
(* ================================================================== *)

Module Binary64.
Local Open Scope Q_scope.

(** A Python [float] is a binary64 value; we reuse the constructors of the
    Standard Library's [spec_float]: signed zeros, signed infinities, NaN and
    finite values [(-1)^s * m * 2^e]. *)
Definition float : Type := spec_float.

Definition prec : Z := 53.
Definition emax : Z := 1024.
(** Exponent of the least significant bit of a subnormal number. *)
Definition emin : Z := -1074.

Definition pow2 (e : Z) : Q := (2 # 1) ^ e.

(** The rational a finite float stands for (0 for the other values). *)
Definition F2Q (x : float) : Q :=
  match x with
  | S754_finite s m e =>
      if s then - (inject_Z (Zpos m) * pow2 e) else inject_Z (Zpos m) * pow2 e
  | _ => 0
  end.

(** [qlog2 q] is the integer part of the base-2 logarithm of [q > 0]. *)
Definition qlog2 (q : Q) : Z :=
  let k := (Z.log2 (Qnum q) - Z.log2 (Zpos (Qden q)))%Z in
  if Qle_bool (pow2 k) q then k else (k - 1)%Z.

(** Exponent of the binary64 grid around [q > 0]: 53 significant bits, and
    never below the subnormal exponent. *)
Definition cexp (q : Q) : Z := Z.max (qlog2 q - (prec - 1)) emin.

(** Rounding of a rational to the nearest integer, ties to even. *)
Definition rne (q : Q) : Z :=
  let f := Qfloor q in
  match ((q - inject_Z f) ?= (1 # 2))%Q with
  | Lt => f
  | Gt => (f + 1)%Z
  | Eq => if Z.even f then f else (f + 1)%Z
  end.

(** Mantissa and exponent of the grid point nearest to [q >= 0]. *)
Definition round_mag (q : Q) : Z * Z :=
  let e := cexp q in (rne (q / pow2 e)%Q, e).

(** A mantissa that rounded up to [2^53] is written with 53 bits again. *)
Definition normalize (me : Z * Z) : Z * Z :=
  let '(m, e) := me in
  if (m =? 2 ^ prec)%Z then ((2 ^ (prec - 1))%Z, (e + 1)%Z) else (m, e).

(** Correct rounding of a rational to binary64 (round to nearest, ties to
    even).  [zs] is the sign given to an exact zero; a magnitude that rounds
    to [2^1024] or more becomes an infinity, one that rounds to zero keeps the
    sign of [q]. *)
Definition Q2F (zs : bool) (q : Q) : float :=
  match q ?= 0 with
  | Eq => S754_zero zs
  | c =>
      let s := match c with Lt => true | _ => false end in
      let '(m, e) := normalize (round_mag (Qabs q)) in
      match m with
      | Zpos p =>
          if Qle_bool (pow2 emax) (inject_Z m * pow2 e)
          then S754_infinity s
          else S754_finite s p e
      | _ => S754_zero s
      end
  end.

(** A decimal literal of the source denotes the nearest binary64 value. *)
Definition lit (q : Q) : float := Q2F false q.

Definition sign_of (x : float) : bool :=
  match x with
  | S754_zero s | S754_infinity s | S754_finite s _ _ => s
  | S754_nan => false
  end.

Definition is_finite (x : float) : bool :=
  match x with
  | S754_zero _ | S754_finite _ _ _ => true
  | _ => false
  end.

Definition fopp (x : float) : float :=
  match x with
  | S754_zero s => S754_zero (negb s)
  | S754_infinity s => S754_infinity (negb s)
  | S754_finite s m e => S754_finite (negb s) m e
  | S754_nan => S754_nan
  end.

(** [x * y]: the exact product, correctly rounded. *)
Definition fmul (x y : float) : float :=
  match x, y with
  | S754_nan, _ | _, S754_nan => S754_nan
  | S754_infinity _, S754_zero _ | S754_zero _, S754_infinity _ => S754_nan
  | S754_infinity sx, _ => S754_infinity (xorb sx (sign_of y))
  | _, S754_infinity sy => S754_infinity (xorb (sign_of x) sy)
  | _, _ => Q2F (xorb (sign_of x) (sign_of y)) (F2Q x * F2Q y)
  end.

(** [x + y]: the exact sum, correctly rounded; an exact zero sum is [+0]
    unless both operands are [-0]. *)
Definition fadd (x y : float) : float :=
  match x, y with
  | S754_nan, _ | _, S754_nan => S754_nan
  | S754_infinity sx, S754_infinity sy =>
      if Bool.eqb sx sy then x else S754_nan
  | S754_infinity _, _ => x
  | _, S754_infinity _ => y
  | S754_zero sx, S754_zero sy => S754_zero (andb sx sy)
  | _, _ => Q2F false (F2Q x + F2Q y)
  end.

Definition fsub (x y : float) : float := fadd x (fopp y).

(** Comparison of two floats; [None] when one of them is NaN. *)
Definition fcompare (x y : float) : option comparison :=
  match x, y with
  | S754_nan, _ | _, S754_nan => None
  | S754_infinity sx, S754_infinity sy =>
      Some (if sx then if sy then Eq else Lt else if sy then Gt else Eq)
  | S754_infinity sx, _ => Some (if sx then Lt else Gt)
  | _, S754_infinity sy => Some (if sy then Gt else Lt)
  | _, _ => Some (F2Q x ?= F2Q y)
  end.

(** Python's [x < y], [x > y], [x <= y] and [x >= y] on floats. *)
Definition fltb (x y : float) : bool :=
  match fcompare x y with Some Lt => true | _ => false end.
Definition fgtb (x y : float) : bool :=
  match fcompare x y with Some Gt => true | _ => false end.
Definition fleb (x y : float) : bool :=
  match fcompare x y with Some Lt | Some Eq => true | _ => false end.
Definition fgeb (x y : float) : bool :=
  match fcompare x y with Some Gt | Some Eq => true | _ => false end.

End Binary64.

(* ================================================================== *)
(** ** The Python runtime used by the script *)
(* ================================================================== *)

Module Py.
Import Binary64.
Local Open Scope string_scope.

(** *** Exceptions *)

Inductive exn : Type :=
| OverflowError
| ZeroDivisionError
| ValueError
| KeyError (key : string)
| SystemExit (code : Z).

Inductive result (A : Type) : Type :=
| Ok (a : A)
| Raise (e : exn).
Arguments Ok {A} a.
Arguments Raise {A} e.

Definition bind {A B} (r : result A) (k : A -> result B) : result B :=
  match r with
  | Ok a => k a
  | Raise e => Raise e
  end.

Notation "x <- c ;; k" := (bind c (fun x => k))
  (at level 61, c at next level, right associativity).

(** *** Numbers *)

(** [a / b] on integers: the exact quotient correctly rounded to a float;
    [ZeroDivisionError] for a zero divisor and [OverflowError] when the
    rounded quotient does not fit a float. *)
Definition int_truediv (a b : Z) : result float :=
  if (b =? 0)%Z then Raise ZeroDivisionError
  else
    match Q2F (xorb (a <? 0)%Z (b <? 0)%Z) (inject_Z a / inject_Z b)%Q with
    | S754_infinity _ => Raise OverflowError
    | r => Ok r
    end.

(** [max(a, b)] and [min(a, b)] keep the first argument unless the second
    one is strictly greater (smaller). *)
Definition py_max (a b : float) : float := if fgtb b a then b else a.
Definition py_min (a b : float) : float := if fltb b a then b else a.

(** [round(x, ndigits)] on a float: infinities and NaN are returned as they
    are; otherwise the exact value of [x] is rounded half-to-even to [ndigits]
    decimal places and the decimal result is converted back to the nearest
    float ([OverflowError] if that is not finite). *)
Definition ndigits_max : Z := 323.
Definition ndigits_min : Z := -308.

Definition scale10 (q : Q) (n : Z) : Q := (q * (10 # 1) ^ n)%Q.

(** [v >= 0] rounded half-to-even to a multiple of [10^(-ndigits)]. *)
Definition round_decimal (v : Q) (ndigits : Z) : Q :=
  scale10 (inject_Z (rne (scale10 v ndigits))) (- ndigits).

Definition py_round (x : float) (ndigits : Z) : result float :=
  if negb (is_finite x) then Ok x
  else if (ndigits_max <? ndigits)%Z then Ok x
  else if (ndigits <? ndigits_min)%Z then Ok (S754_zero (sign_of x))
  else
    let d := round_decimal (Qabs (F2Q x)) ndigits in
    match Q2F (sign_of x) (if sign_of x then - d else d)%Q with
    | S754_infinity _ => Raise OverflowError
    | r => Ok r
    end.

(** [int(x)] on a float truncates toward zero. *)
Definition int_of_float (x : float) : result Z :=
  match x with
  | S754_nan => Raise ValueError
  | S754_infinity _ => Raise OverflowError
  | S754_zero _ => Ok 0%Z
  | S754_finite s m e =>
      let a := (if (0 <=? e)%Z then Z.shiftl (Zpos m) e
                else Z.shiftr (Zpos m) (- e))%Z in
      Ok (if s then (- a)%Z else a)
  end.

(** *** Text *)

(** A Python [str] is modelled by its UTF-8 encoding, one [ascii] per byte;
    the order on strings is then the order on code points. *)
Definition quote : string := String (ascii_of_nat 34) EmptyString.
Definition backslash : string := String (ascii_of_nat 92) EmptyString.
Definition newline : string := String (ascii_of_nat 10) EmptyString.

Fixpoint spaces (n : nat) : string :=
  match n with
  | O => EmptyString
  | S n' => String " " (spaces n')
  end.

(** [str(n)] on an integer. *)
Definition str_of_int (z : Z) : string := NilZero.string_of_int (Z.to_int z).

Definition hex_digit (n : N) : ascii :=
  if (n <? 10)%N then ascii_of_N (48 + n) else ascii_of_N (87 + n).

Definition hex4 (n : N) : string :=
  String (hex_digit (N.land (N.shiftr n 12) 15))
    (String (hex_digit (N.land (N.shiftr n 8) 15))
       (String (hex_digit (N.land (N.shiftr n 4) 15))
          (String (hex_digit (N.land n 15)) EmptyString))).

(** The escape [\uXXXX] of a code point, as a surrogate pair above the
    basic plane. *)
Definition u_escape (cp : N) : string :=
  if (cp <? 65536)%N then backslash ++ "u" ++ hex4 cp
  else
    let v := (cp - 65536)%N in
    backslash ++ "u" ++ hex4 (N.lor 55296 (N.shiftr v 10)) ++
    backslash ++ "u" ++ hex4 (N.lor 56320 (N.land v 1023)).

Definition escape_ascii_char (n : N) (c : ascii) : string :=
  if (n =? 34)%N then backslash ++ quote
  else if (n =? 92)%N then backslash ++ backslash
  else if (n =? 10)%N then backslash ++ "n"
  else if (n =? 13)%N then backslash ++ "r"
  else if (n =? 9)%N then backslash ++ "t"
  else if (n =? 8)%N then backslash ++ "b"
  else if (n =? 12)%N then backslash ++ "f"
  else if ((n <? 32) || (n =? 127))%N then u_escape n
  else String c EmptyString.

Definition continuation (c : ascii) : option N :=
  let n := N_of_ascii c in
  if ((128 <=? n) && (n <? 192))%N then Some (n - 128)%N else None.

(** The code point that starts with byte [c1], and how many of the bytes
    that follow belong to it.  A byte that does not start a well-formed UTF-8
    sequence stands for itself. *)
Definition decode_step (c1 : ascii) (r1 : string) : N * nat :=
  let n1 := N_of_ascii c1 in
  let conts :=
    match r1 with
    | String c2 (String c3 (String c4 _)) =>
        (continuation c2, continuation c3, continuation c4)
    | String c2 (String c3 EmptyString) =>
        (continuation c2, continuation c3, None)
    | String c2 EmptyString => (continuation c2, None, None)
    | EmptyString => (None, None, None)
    end in
  match conts with
  | (Some n2, o3, o4) =>
      if ((192 <=? n1) && (n1 <? 224))%N
      then (((n1 - 192) * 64 + n2)%N, 1%nat)
      else
        match o3 with
        | Some n3 =>
            if ((224 <=? n1) && (n1 <? 240))%N
            then ((((n1 - 224) * 64 + n2) * 64 + n3)%N, 2%nat)
            else
              match o4 with
              | Some n4 =>
                  if ((240 <=? n1) && (n1 <? 248))%N
                  then (((((n1 - 240) * 64 + n2) * 64 + n3) * 64 + n4)%N,
                        3%nat)
                  else (n1, 0%nat)
              | None => (n1, 0%nat)
              end
        | None => (n1, 0%nat)
        end
  | _ => (n1, 0%nat)
  end.

(** Body of [json.encoder.py_encode_basestring_ascii]: every character
    outside the printable ASCII range is escaped.  [skip] counts the bytes
    already read as part of the previous character. *)
Fixpoint escape_ascii_from (skip : nat) (s : string) : string :=
  match s with
  | EmptyString => EmptyString
  | String c r =>
      match skip with
      | S k => escape_ascii_from k r
      | O =>
          let '(cp, extra) := decode_step c r in
          (if (cp <? 128)%N then escape_ascii_char cp c else u_escape cp)
            ++ escape_ascii_from extra r
      end
  end.

Definition escape_ascii (s : string) : string := escape_ascii_from 0 s.

Definition encode_basestring_ascii (s : string) : string :=
  quote ++ escape_ascii s ++ quote.

(** [s.encode()]: the UTF-8 bytes of a string. *)
Definition str_encode (s : string) : list byte := list_byte_of_string s.

(** *** Dictionaries *)

(** The values the script stores in a dictionary. *)
Inductive value : Type :=
| VStr (s : string)
| VInt (z : Z)
| VFloat (x : float).

(** A [dict] with string keys, in insertion order. *)
Definition dict (V : Type) : Type := list (string * V).

(** [d[k]] *)
Fixpoint dict_get {V} (d : dict V) (k : string) : result V :=
  match d with
  | [] => Raise (KeyError k)
  | (k', v) :: d' => if (k' =? k)%string then Ok v else dict_get d' k
  end.

(** [d[k] = v]: a present key keeps its place, a new one goes last. *)
Fixpoint dict_set {V} (d : dict V) (k : string) (v : V) : dict V :=
  match d with
  | [] => [(k, v)]
  | (k', v') :: d' =>
      if (k' =? k)%string then (k, v) :: d' else (k', v') :: dict_set d' k v
  end.

Definition dict_keys {V} (d : dict V) : list string := map fst d.

(** [sorted(d.items())] for distinct string keys. *)
Fixpoint insert_item {V} (kv : string * V) (l : dict V) : dict V :=
  match l with
  | [] => [kv]
  | kv' :: l' =>
      if String.leb (fst kv) (fst kv') then kv :: l
      else kv' :: insert_item kv l'
  end.

Definition sorted_items {V} (d : dict V) : dict V :=
  fold_right insert_item [] d.

(** *** Command-line errors *)

(** The errors [argparse] reports; their wording is left to [Host]. *)
Inductive usage_error : Type :=
| RequiredMissing (names : list string)
| InvalidInt (dest arg : string)
| InvalidChoice (flag arg : string) (choices : list string)
| ExpectedOneArgument (flag : string)
| IgnoredExplicitArgument (flag arg : string)
| AmbiguousOption (arg : string) (candidates : list string)
| UnrecognizedArguments (extras : list string).

(** *** Services of the standard library left abstract

    The text produced by these library functions plays no part in the
    properties below, so it is a parameter of the development. *)
Record Host : Type := {
  (** [repr(x)], which is also [str(x)] and [format(x, '')], on a float *)
  float_repr : float -> string;
  (** [int(s)] on a string; [None] stands for [ValueError] *)
  int_of_str : string -> option Z;
  (** [hashlib.sha256(b).hexdigest()] *)
  sha256_hexdigest : list byte -> string;
  (** the program name [argparse] prints, from [sys.argv[0]] *)
  prog : string;
  (** [parser.format_usage()] and [parser.format_help()] *)
  format_usage : string;
  format_help : string;
  (** the message of an [argparse] error *)
  error_message : usage_error -> string;
  (** the traceback the interpreter prints for an uncaught exception *)
  format_traceback : exn -> string
}.

(** *** [json.dumps] on a flat dictionary *)

Definition json_float (h : Host) (x : float) : string :=
  match x with
  | S754_nan => "NaN"
  | S754_infinity false => "Infinity"
  | S754_infinity true => "-Infinity"
  | _ => float_repr h x
  end.

Definition json_value (h : Host) (v : value) : string :=
  match v with
  | VStr s => encode_basestring_ascii s
  | VInt z => str_of_int z
  | VFloat x => json_float h x
  end.

Definition json_item (h : Host) (kv : string * value) : string :=
  encode_basestring_ascii (fst kv) ++ ": " ++ json_value h (snd kv).

(** [json.dumps(d, indent=indent, sort_keys=sort_keys)]: with an indent the
    items are separated by a comma and a new line, without by [", "]. *)
Definition json_dumps (h : Host) (indent : option nat) (sort_keys : bool)
  (d : dict value) : string :=
  match d with
  | [] => "{}"
  | _ =>
      let items := if sort_keys then sorted_items d else d in
      match indent with
      | Some n =>
          let newline_indent := newline ++ spaces n in
          "{" ++ newline_indent
            ++ String.concat ("," ++ newline_indent) (map (json_item h) items)
            ++ newline ++ "}"
      | None =>
          "{" ++ String.concat ", " (map (json_item h) items) ++ "}"
      end
  end.

(** *** Standard output, standard error and the exit status *)

Record world : Type := { stdout : string; stderr : string }.

Definition io (A : Type) : Type := world -> result A * world.

Definition io_ret {A} (a : A) : io A := fun w => (Ok a, w).

Definition io_bind {A B} (m : io A) (k : A -> io B) : io B :=
  fun w =>
    match m w with
    | (Ok a, w') => k a w'
    | (Raise e, w') => (Raise e, w')
    end.

Notation "x <~ c ;; k" := (io_bind c (fun x => k))
  (at level 61, c at next level, right associativity).
Notation "c ;;; k" := (io_bind c (fun _ => k))
  (at level 61, right associativity).

Definition lift {A} (r : result A) : io A := fun w => (r, w).

Definition write_stdout (s : string) : io unit :=
  fun w => (Ok tt, {| stdout := stdout w ++ s; stderr := stderr w |}).

Definition write_stderr (s : string) : io unit :=
  fun w => (Ok tt, {| stdout := stdout w; stderr := stderr w ++ s |}).

(** [print(s)] *)
Definition print (s : string) : io unit := write_stdout (s ++ newline).

(** What the operating system sees of a run. *)
Record outcome : Type := { out : string; err : string; status : Z }.

(** Running a script: [SystemExit] sets the exit status, any other uncaught
    exception prints a traceback and exits with status 1. *)
Definition run (h : Host) (script : io unit) : outcome :=
  match script {| stdout := EmptyString; stderr := EmptyString |} with
  | (Ok _, w) => {| out := stdout w; err := stderr w; status := 0 |}
  | (Raise (SystemExit code), w) =>
      {| out := stdout w; err := stderr w; status := code |}
  | (Raise e, w) =>
      {| out := stdout w; err := stderr w ++ format_traceback h e;
         status := 1 |}
  end.

(** *** [argparse]: how one command-line word is read

    [parse_optional] follows [ArgumentParser._parse_optional]: a word is a
    positional argument, an option (written in full, with [=value], or
    abbreviated), an unknown option, or an ambiguous abbreviation.  Digits
    are the ASCII digits. *)

Inductive arg_class (O : Type) : Type :=
| Positional
| Optional (option_string : string) (o : O) (explicit : option string)
| UnknownOptional
| AmbiguousOptional (candidates : list string).
Arguments Positional {O}.
Arguments Optional {O} option_string o explicit.
Arguments UnknownOptional {O}.
Arguments AmbiguousOptional {O} candidates.

Definition starts_with_dash (s : string) : bool :=
  match s with
  | String "-" _ => true
  | _ => false
  end.

Definition is_long (s : string) : bool :=
  match s with
  | String "-" (String "-" _) => true
  | _ => false
  end.

(** [s.split(c, 1)] when [c] occurs in [s]. *)
Fixpoint split_at (c : ascii) (s : string) : option (string * string) :=
  match s with
  | EmptyString => None
  | String a r =>
      if Ascii.eqb a c then Some (EmptyString, r)
      else
        match split_at c r with
        | Some (x, y) => Some (String a x, y)
        | None => None
        end
  end.

Definition split_eq (s : string) : option (string * string) :=
  split_at "=" s.

Definition is_digit (c : ascii) : bool :=
  let n := N_of_ascii c in ((48 <=? n) && (n <=? 57))%N.

Fixpoint all_digits (s : string) : bool :=
  match s with
  | EmptyString => true
  | String c r => is_digit c && all_digits r
  end.

Definition nonempty (s : string) : bool :=
  match s with
  | EmptyString => false
  | _ => true
  end.

(** The pattern [^-\d+$|^-\d*\.\d+$]. *)
Definition looks_negative_number (s : string) : bool :=
  match s with
  | String "-" r =>
      (nonempty r && all_digits r)
      || match split_at "." r with
         | Some (a, b) => all_digits a && nonempty b && all_digits b
         | None => false
         end
  | _ => false
  end.

Definition contains_space (s : string) : bool :=
  match split_at " " s with
  | Some _ => true
  | None => false
  end.

Fixpoint lookup_option {O} (table : list (string * O)) (s : string)
  : option O :=
  match table with
  | [] => None
  | (s', o) :: t => if (s' =? s)%string then Some o else lookup_option t s
  end.

(** [ArgumentParser._get_option_tuples]: the options a word abbreviates. *)
Definition option_tuples {O} (table : list (string * O)) (arg : string)
  : list (string * O * option string) :=
  if is_long arg then
    let '(pre, explicit) :=
      match split_eq arg with
      | Some (p, e) => (p, Some e)
      | None => (arg, None)
      end in
    map (fun so => (fst so, snd so, explicit))
        (filter (fun so => prefix pre (fst so)) table)
  else
    let short := substring 0 2 arg in
    let rest := substring 2 (length arg - 2) arg in
    flat_map
      (fun so =>
         if (fst so =? short)%string then [(fst so, snd so, Some rest)]
         else if prefix arg (fst so) then [(fst so, snd so, None)]
         else [])
      table.

Definition parse_optional {O} (table : list (string * O)) (arg : string)
  : arg_class O :=
  if negb (starts_with_dash arg) then Positional
  else
    match lookup_option table arg with
    | Some o => Optional arg o None
    | None =>
        if (length arg =? 1)%nat then Positional
        else
          let with_eq :=
            match split_eq arg with
            | Some (p, e) =>
                match lookup_option table p with
                | Some o => Some (Optional p o (Some e))
                | None => None
                end
            | None => None
            end in
          match with_eq with
          | Some c => c
          | None =>
              match option_tuples table arg with
              | [(ostr, o, explicit)] => Optional ostr o explicit
              | _ :: _ :: _ as l =>
                  AmbiguousOptional (map (fun t => fst (fst t)) l)
              | [] =>
                  if looks_negative_number arg
                     && negb (existsb looks_negative_number (map fst table))
                  then Positional
                  else if contains_space arg then Positional
                  else UnknownOptional
              end
          end
    end.

(** A word that can be the argument of an option. *)
Definition is_argument {O} (table : list (string * O)) (arg : string)
  : bool :=
  negb (arg =? "--")%string
  && match parse_optional table arg with
     | Positional => true
     | _ => false
     end.

End Py.

(* ================================================================== *)
(** ** The script *)
(* ================================================================== *)

Module App.
Import Binary64 Py.
Local Open Scope string_scope.

(** [@dataclass class ProofSystem] *)
Record ProofSystem : Type := {
  key : string;
  name : string;
  family : string;
  description : string;
  proving_complexity : float;
  verification_cost : float;
  privacy_strength : float;
  soundness_guarantee : float
}.

Definition aztec : ProofSystem := {|
  key := "aztec";
  name := "Aztec Noir-style ZK System";
  family := "ZK-SNARK privacy model";
  description :=
    "A zk system enabling encrypted transactions and private state.";
  proving_complexity := lit 7.8;
  verification_cost := lit 2.1;
  privacy_strength := lit 9.3;
  soundness_guarantee := lit 8.4
|}.

Definition zama : ProofSystem := {|
  key := "zama";
  name := "Zama FHE Cryptosystem";
  family := "Fully Homomorphic Encryption";
  description :=
    "FHE compute model with encrypted inputs, outputs, and logic.";
  proving_complexity := lit 9.2;
  verification_cost := lit 7.8;
  privacy_strength := lit 8.7;
  soundness_guarantee := lit 9.1
|}.

Definition soundness : ProofSystem := {|
  key := "soundness";
  name := "Formal Soundness Verification Model";
  family := "Proof-oriented protocol engineering";
  description :=
    "A system built around rigorous soundness proofs and verifiable execution.";
  proving_complexity := lit 6.1;
  verification_cost := lit 3.2;
  privacy_strength := lit 6.4;
  soundness_guarantee := lit 10.0
|}.

(** [SYSTEMS]: a dictionary literal, kept in insertion order. *)
Definition SYSTEMS : list (string * ProofSystem) :=
  [ ("aztec", aztec); ("zama", zama); ("soundness", soundness) ].

(** Line 68: [min(1.0, max(0.35, 1 - (tx_rate / 20000)))]. *)
Definition throughput_factor (tx_rate : Z) : result float :=
  q <- int_truediv tx_rate 20000 ;;
  Ok (py_min (lit 1.0) (py_max (lit 0.35) (fsub (lit 1) q))).

Definition benefit (system : ProofSystem) : float :=
  fadd (fmul (lit 0.42) (privacy_strength system))
       (fmul (lit 0.43) (soundness_guarantee system)).

Definition penalty (system : ProofSystem) : float :=
  fadd (fmul (lit 0.10) (proving_complexity system))
       (fmul (lit 0.05) (verification_cost system)).

Definition compute_quality_index (system : ProofSystem) (tx_rate : Z)
  : result float :=
  let benefit := benefit system in
  let penalty := penalty system in
  throughput_factor <- throughput_factor tx_rate ;;
  py_round (fmul (fsub benefit penalty) throughput_factor) 4.

(** [SYSTEMS[k]] *)
Definition lookup_system (k : string) : result ProofSystem :=
  dict_get SYSTEMS k.

(** [dataclasses.asdict(system)]: the fields in declaration order. *)
Definition asdict (system : ProofSystem) : dict value :=
  [ ("key", VStr (key system));
    ("name", VStr (name system));
    ("family", VStr (family system));
    ("description", VStr (description system));
    ("proving_complexity", VFloat (proving_complexity system));
    ("verification_cost", VFloat (verification_cost system));
    ("privacy_strength", VFloat (privacy_strength system));
    ("soundness_guarantee", VFloat (soundness_guarantee system)) ].

Section WithHost.
Variable h : Host.

Definition compute_hash (metadata : dict value) : string :=
  let enc := str_encode (json_dumps h None true metadata) in
  sha256_hexdigest h enc.

(** [now] is the value [time.time()] returns during the call. *)
Definition build_summary (now : float) (system : ProofSystem) (tx_rate : Z)
  : result (dict value) :=
  let base := asdict system in
  let base := dict_set base "txRate" (VInt tx_rate) in
  quality_index <- compute_quality_index system tx_rate ;;
  let base := dict_set base "qualityIndex" (VFloat quality_index) in
  timestamp <- int_of_float now ;;
  let base := dict_set base "timestamp" (VInt timestamp) in
  let base := dict_set base "hash" (VStr (compute_hash base)) in
  Ok base.

(** *** [parse_args] *)

(** [argparse.Namespace] with the three destinations of the parser. *)
Record Namespace : Type := {
  tx_rate : Z;
  system : string;
  json : bool
}.

(** The options of the parser: [-h]/[--help] come with the parser itself,
    [--system] and [--json] from the two [add_argument] calls. *)
Inductive cli_option : Type := OptHelp | OptSystem | OptJson.

Definition option_table : list (string * cli_option) :=
  [ ("-h", OptHelp); ("--help", OptHelp);
    ("--system", OptSystem); ("--json", OptJson) ].

(** [choices=list(SYSTEMS.keys())] *)
Definition system_choices : list string := dict_keys SYSTEMS.

Inductive parse_result : Type :=
| Parsed (ns : Namespace)
| HelpExit
| Rejected (e : usage_error).

(** What the parser has collected so far; [st_system] and [st_json] start
    from the declared defaults. *)
Record pstate : Type := {
  st_tx_rate : option Z;
  st_system : string;
  st_json : bool;
  st_extras : list string
}.

Definition initial_pstate : pstate :=
  {| st_tx_rate := None; st_system := "aztec"; st_json := false;
     st_extras := [] |}.

(** A positional word: the first one is [tx_rate] and goes through
    [type=int], later ones are left over. *)
Definition take_positional (arg : string) (st : pstate)
  : pstate + usage_error :=
  match st_tx_rate st with
  | None =>
      match int_of_str h arg with
      | Some z =>
          inl {| st_tx_rate := Some z; st_system := st_system st;
                 st_json := st_json st; st_extras := st_extras st |}
      | None => inr (InvalidInt "tx_rate" arg)
      end
  | Some _ =>
      inl {| st_tx_rate := st_tx_rate st; st_system := st_system st;
             st_json := st_json st; st_extras := st_extras st ++ [arg] |}
  end.

Definition take_system (flag arg : string) (st : pstate)
  : pstate + usage_error :=
  if existsb (String.eqb arg) system_choices
  then inl {| st_tx_rate := st_tx_rate st; st_system := arg;
              st_json := st_json st; st_extras := st_extras st |}
  else inr (InvalidChoice flag arg system_choices).

Definition set_json (st : pstate) : pstate :=
  {| st_tx_rate := st_tx_rate st; st_system := st_system st;
     st_json := true; st_extras := st_extras st |}.

Definition add_extra (arg : string) (st : pstate) : pstate :=
  {| st_tx_rate := st_tx_rate st; st_system := st_system st;
     st_json := st_json st; st_extras := st_extras st ++ [arg] |}.

(** After the last word: a missing [tx_rate] is reported first, then the
    words nobody took. *)
Definition finish (st : pstate) : parse_result :=
  match st_tx_rate st with
  | None => Rejected (RequiredMissing ["tx_rate"])
  | Some z =>
      match st_extras st with
      | [] => Parsed {| tx_rate := z; system := st_system st;
                        json := st_json st |}
      | extras => Rejected (UnrecognizedArguments extras)
      end
  end.

Fixpoint all_h (s : string) : bool :=
  match s with
  | EmptyString => true
  | String "h" r => all_h r
  | _ => false
  end.

(** The words are read from left to right; [after_dashes] is set once the
    separator [--] has been met, after which every word is positional. *)
Fixpoint parse_loop (args : list string) (after_dashes : bool) (st : pstate)
  : parse_result :=
  match args with
  | [] => finish st
  | arg :: rest =>
      if after_dashes then
        match take_positional arg st with
        | inl st' => parse_loop rest true st'
        | inr e => Rejected e
        end
      else if (arg =? "--")%string then parse_loop rest true st
      else
        match parse_optional option_table arg with
        | Positional =>
            match take_positional arg st with
            | inl st' => parse_loop rest false st'
            | inr e => Rejected e
            end
        | UnknownOptional => parse_loop rest false (add_extra arg st)
        | AmbiguousOptional candidates =>
            Rejected (AmbiguousOption arg candidates)
        | Optional flag OptHelp None => HelpExit
        | Optional flag OptHelp (Some explicit) =>
            if negb (is_long flag) && nonempty explicit && all_h explicit
            then HelpExit
            else Rejected (IgnoredExplicitArgument flag explicit)
        | Optional flag OptJson None => parse_loop rest false (set_json st)
        | Optional flag OptJson (Some explicit) =>
            Rejected (IgnoredExplicitArgument flag explicit)
        | Optional flag OptSystem (Some explicit) =>
            match take_system flag explicit st with
            | inl st' => parse_loop rest false st'
            | inr e => Rejected e
            end
        | Optional flag OptSystem None =>
            match rest with
            | value :: rest' =>
                if is_argument option_table value then
                  match take_system flag value st with
                  | inl st' => parse_loop rest' false st'
                  | inr e => Rejected e
                  end
                else Rejected (ExpectedOneArgument flag)
            | [] => Rejected (ExpectedOneArgument flag)
            end
        end
  end.

Definition parse (argv : list string) : parse_result :=
  parse_loop argv false initial_pstate.

(** [parser.parse_args()] on the words after the program name: help goes
    to standard output with status 0, an error to standard error, after the
    usage line, with status 2. *)
Definition parse_args (argv : list string) : io Namespace :=
  match parse argv with
  | Parsed ns => io_ret ns
  | HelpExit =>
      write_stdout (format_help h) ;;;
      lift (Raise (SystemExit 0))
  | Rejected e =>
      write_stderr (format_usage h) ;;;
      write_stderr (prog h ++ ": error: " ++ error_message h e ++ newline) ;;;
      lift (Raise (SystemExit 2))
  end.

(** *** [print_human] *)

(** A replacement field [{v}] of an f-string. *)
Definition fmt (v : value) : string :=
  match v with
  | VStr s => s
  | VInt z => str_of_int z
  | VFloat x => float_repr h x
  end.

Definition field (summary : dict value) (k : string) : io string :=
  v <~ lift (dict_get summary k) ;; io_ret (fmt v).

Definition print_human (summary : dict value) : io unit :=
  print "🔐 Cryptographic Architecture Model" ;;;
  name <~ field summary "name" ;;
  key <~ field summary "key" ;;
  print ("System: " ++ name ++ " (" ++ key ++ ")") ;;;
  family <~ field summary "family" ;;
  print ("Family: " ++ family) ;;;
  description <~ field summary "description" ;;
  print ("Description: " ++ description) ;;;
  print "" ;;;
  txRate <~ field summary "txRate" ;;
  print ("Transactions/sec: " ++ txRate) ;;;
  privacy_strength <~ field summary "privacy_strength" ;;
  print ("Privacy strength: " ++ privacy_strength) ;;;
  soundness_guarantee <~ field summary "soundness_guarantee" ;;
  print ("Soundness guarantee: " ++ soundness_guarantee) ;;;
  proving_complexity <~ field summary "proving_complexity" ;;
  print ("Proving complexity: " ++ proving_complexity) ;;;
  verification_cost <~ field summary "verification_cost" ;;
  print ("Verification cost:  " ++ verification_cost) ;;;
  print "" ;;;
  qualityIndex <~ field summary "qualityIndex" ;;
  print ("🏁 Quality Index: " ++ qualityIndex) ;;;
  hash <~ field summary "hash" ;;
  print ("🧬 Metadata hash: " ++ hash).

(** *** [main] *)

Definition main (argv : list string) (now : float) : io unit :=
  args <~ parse_args argv ;;
  system <~ lift (lookup_system (system args)) ;;
  data <~ lift (build_summary now system (tx_rate args)) ;;
  if json args
  then print (json_dumps h (Some 2%nat) true data)
  else print_human data.

(** The process started as [prog argv...] while the clock reads [now]. *)
Definition run_main (argv : list string) (now : float) : outcome :=
  run h (main argv now).

End WithHost.

End App.

(* ================================================================== *)
(** ** A sample host *)
(* ================================================================== *)

(** The statements below hold for every [Host].  To run the model on
    concrete command lines we fix one, with simple stand-ins for the library
    functions: floats are printed as mantissa and exponent, the digest is the
    number of bytes hashed. *)
Module Sample.
Import Binary64 Py App.
Local Open Scope string_scope.

Definition float_text (x : float) : string :=
  match x with
  | S754_zero s => if s then "-0.0" else "0.0"
  | S754_infinity s => if s then "-inf" else "inf"
  | S754_nan => "nan"
  | S754_finite s m e =>
      (if s then "-" else "") ++ str_of_int (Zpos m) ++ "p" ++ str_of_int e
  end.

Definition decimal_int (s : string) : option Z :=
  match NilEmpty.int_of_string s with
  | Some d => Some (Z.of_int d)
  | None => None
  end.

Definition digest_text (b : list byte) : string :=
  str_of_int (Z.of_nat (List.length b)).

Definition error_text (e : usage_error) : string :=
  match e with
  | RequiredMissing names =>
      "the following arguments are required: " ++ String.concat ", " names
  | InvalidInt dest arg => "argument " ++ dest ++ ": invalid int value: " ++ arg
  | InvalidChoice flag arg _ => "argument " ++ flag ++ ": invalid choice: " ++ arg
  | ExpectedOneArgument flag => "argument " ++ flag ++ ": expected one argument"
  | IgnoredExplicitArgument flag arg =>
      "argument " ++ flag ++ ": ignored explicit argument " ++ arg
  | AmbiguousOption arg _ => "ambiguous option: " ++ arg
  | UnrecognizedArguments extras =>
      "unrecognized arguments: " ++ String.concat " " extras
  end.

Definition usage_text : string :=
  "usage: app.py [-h] [--system {aztec,zama,soundness}] [--json] tx_rate"
    ++ newline.

Definition help_text : string :=
  usage_text ++ newline
    ++ "Cryptographic architecture comparator for Web3 systems." ++ newline.

Definition traceback_text (e : exn) : string :=
  "Traceback (most recent call last):" ++ newline.

Definition host : Host :=
  {| float_repr := float_text;
     int_of_str := decimal_int;
     sha256_hexdigest := digest_text;
     prog := "app.py";
     format_usage := usage_text;
     format_help := help_text;
     error_message := error_text;
     format_traceback := traceback_text |}.

(** Two clock readings within the same second. *)
Definition noon : float := lit 1762214400.25.
Definition noon_later : float := lit 1762214400.75.

End Sample.

(* ================================================================== *)
(** ** Vocabulary of the statements *)
(* ================================================================== *)

(** Rounding seen as a function on rationals, the order on floats through
    their values, and the range on which [tx_rate / 20000] is a float. *)
Module NumericVocabulary.
Import Binary64 Py App.
Local Open Scope Q_scope.

(** The value of the grid point nearest to [q >= 0]. *)
Definition rnd_val (q : Q) : Q :=
  let '(m, e) := round_mag q in inject_Z m * pow2 e.

(** Rounding of any rational: [rnd_val] on the magnitude, with the sign of
    [q].  It is the value of [Q2F zs q] whenever that is finite. *)
Definition sround (q : Q) : Q :=
  match q ?= 0 with
  | Lt => - rnd_val (Qabs q)
  | Eq => 0
  | Gt => rnd_val (Qabs q)
  end.

(** [2^1024], above every finite binary64 value. *)
Definition huge : Q := pow2 emax.

(** The value of a float on the extended line, the infinities at [huge]
    and [- huge]. *)
Definition fval (x : float) : Q :=
  match x with
  | S754_infinity s => if s then - huge else huge
  | _ => F2Q x
  end.

(** A float that is not NaN and whose magnitude is below [huge]: every
    result of [Q2F] is one. *)
Definition proper (x : float) : Prop :=
  match x with
  | S754_nan => False
  | S754_finite _ _ _ => Qabs (F2Q x) < huge
  | _ => True
  end.

(** Rationals of magnitude below [2^1024 - 2^970] round to a finite float,
    the others to an infinity; [dbl_max] is the largest finite float. *)
Definition overflow_threshold : Q := pow2 emax - pow2 (emax - prec - 1).

Definition dbl_max : Q := pow2 emax - pow2 (emax - prec).

(** [tx_rate / 20000] is a float exactly when [|tx_rate| < tx_bound]. *)
Definition tx_bound : Z := 20000 * (2 ^ 1024 - 2 ^ 970).

(** The clamp of line 68, as a function of [1 - tx_rate / 20000]. *)
Definition clamp (raw : float) : float :=
  py_min (lit 1.0) (py_max (lit 0.35) raw).

(** The float [tx_rate / 20000], when the division does not overflow. *)
Definition quotient (tx_rate : Z) : float :=
  Q2F (tx_rate <? 0)%Z (inject_Z tx_rate / inject_Z 20000).

End NumericVocabulary.

(** The fields that are hashed, the shape of the two renderings, and command
    lines written with the documented components. *)
Module TextVocabulary.
Import Binary64 Py App.
Local Open Scope string_scope.

(** The dictionary [build_summary] passes to [compute_hash]: the fields of
    the record, then [txRate], [qualityIndex] and [timestamp]. *)
Definition payload (system : ProofSystem) (tx_rate : Z) (quality_index : float)
  (timestamp : Z) : dict value :=
  (asdict system ++
   [ ("txRate", VInt tx_rate); ("qualityIndex", VFloat quality_index);
     ("timestamp", VInt timestamp) ])%list.

(** The order on keys: code point by code point. *)
Definition str_lt (a b : string) : Prop := String.compare a b = Lt.

(** Two summaries with the same value under every key but [hash]. *)
Definition same_fields (d1 d2 : dict value) : Prop :=
  forall k, k <> "hash" -> dict_get d1 k = dict_get d2 k.

(** [unlines l]: the lines of [l], each ended by a new line. *)
Fixpoint unlines (l : list string) : string :=
  match l with
  | [] => ""
  | s :: l' => s ++ newline ++ unlines l'
  end.

(** A line of the indented JSON object. *)
Definition json_line (h : Host) (k : string) (v : value) : string :=
  "  " ++ quote ++ k ++ quote ++ ": " ++ json_value h v.

(** The object made of these lines, one per item. *)
Definition json_object (lines : list string) : string :=
  "{" ++ newline ++ String.concat ("," ++ newline) lines ++ newline ++ "}".

(** The components of the documented command line
    [<tx_rate> [--system <key>] [--json]], in any order and number. *)
Inductive word : Type :=
| Pos (s : string)          (* a positional word *)
| SystemOpt (v : string)    (* --system v *)
| SystemEq (v : string)     (* --system=v *)
| JsonFlag.                 (* --json *)

(** The words of [sys.argv[1:]] a component is written with. *)
Definition render_word (w : word) : list string :=
  match w with
  | Pos s => [s]
  | SystemOpt v => ["--system"; v]
  | SystemEq v => ["--system=" ++ v]
  | JsonFlag => ["--json"]
  end.

Definition render (ws : list word) : list string := flat_map render_word ws.

(** A positional word or an option value must read as an argument. *)
Definition plain (w : word) : Prop :=
  match w with
  | Pos s | SystemOpt s => is_argument option_table s = true
  | _ => True
  end.

(** The word that is read as [tx_rate], if any. *)
Fixpoint first_positional (ws : list word) : option string :=
  match ws with
  | [] => None
  | Pos s :: _ => Some s
  | _ :: ws' => first_positional ws'
  end.

(** The values given to [--system]. *)
Definition system_values (ws : list word) : list string :=
  flat_map (fun w => match w with SystemOpt v | SystemEq v => [v] | _ => [] end) ws.



(** What the process does with a rejected command line. *)
Definition usage_failure (h : Host) (e : usage_error) : outcome :=
  {| out := "";
     err := format_usage h ++ prog h ++ ": error: " ++ error_message h e ++ newline;
     status := 2 |}.

(** The positional words of a command line, in order. *)
Definition positionals (ws : list word) : list string :=
  flat_map (fun w => match w with Pos s => [s] | _ => [] end) ws.

(** Whether [--json] is among the components. *)
Definition json_given (ws : list word) : bool :=
  existsb (fun w => match w with JsonFlag => true | _ => false end) ws.

(** The system a command line selects: the last value given to [--system],
    and [aztec] when there is none. *)
Definition chosen_system (ws : list word) : string :=
  last (system_values ws) "aztec".

(** A value of [--system] that is one of the keys. *)
Definition known_system (v : string) : Prop := In v system_choices.

(** What the process does with an exception nobody catches. *)
Definition crash (h : Host) (e : exn) : outcome :=
  {| out := ""; err := format_traceback h e; status := 1 |}.

(** The order in which [sort_keys=True] puts two items. *)
Definition key_le {V} (a b : string * V) : Prop :=
  String.leb (fst a) (fst b) = true.

(** Strings made of ASCII characters, and of printable ASCII characters
    (from the space to the tilde). *)
Definition is_ascii (c : ascii) : bool := (N_of_ascii c <? 128)%N.

Definition is_printable (c : ascii) : bool :=
  ((32 <=? N_of_ascii c) && (N_of_ascii c <=? 126))%N.

Fixpoint all_chars (p : ascii -> bool) (s : string) : bool :=
  match s with
  | EmptyString => true
  | String c r => p c && all_chars p r
  end.

(** A character [json.dumps] writes as it is. *)
Definition is_verbatim (c : ascii) : bool :=
  is_printable c
  && negb (N_of_ascii c =? 34)%N && negb (N_of_ascii c =? 92)%N.

End TextVocabulary.

(* ================================================================== *)
(** ** Facts about binary64 rounding *)
(* ================================================================== *)

Module Binary64Facts.
Import Binary64 NumericVocabulary.
Local Open Scope Q_scope.

Lemma pow2_pos e : 0 < pow2 e.
Proof. unfold pow2. apply Qpower_0_lt. reflexivity. Qed.

Lemma pow2_add a b : pow2 (a + b) == pow2 a * pow2 b.
Proof. unfold pow2. apply Qpower_plus. discriminate. Qed.

Lemma pow2_0 : pow2 0 == 1.
Proof. reflexivity. Qed.

Lemma pow2_1 : pow2 1 == 2.
Proof. reflexivity. Qed.

Lemma pow2_opp a : pow2 (- a) == / pow2 a.
Proof. unfold pow2. apply Qpower_opp. Qed.

Lemma pow2_le a b : (a <= b)%Z -> pow2 a <= pow2 b.
Proof. intros H. unfold pow2. apply Qpower_le_compat_l; [exact H | discriminate]. Qed.

Lemma pow2_lt a b : (a < b)%Z -> pow2 a < pow2 b.
Proof. intros H. unfold pow2. apply Qpower_lt_compat_l; [exact H | reflexivity]. Qed.

Lemma pow2_lt_inv a b : pow2 a < pow2 b -> (a < b)%Z.
Proof.
  intros H. destruct (Z_lt_le_dec a b) as [L | L]; [exact L | ].
  apply pow2_le in L. lra.
Qed.

Lemma pow2_inject n : (0 <= n)%Z -> inject_Z (2 ^ n) == pow2 n.
Proof. intros H. unfold pow2. now rewrite Zpower_Qpower. Qed.

Lemma pow2_succ a : pow2 (a + 1) == 2 * pow2 a.
Proof. rewrite pow2_add, pow2_1. ring. Qed.

Lemma pow2_div a b : pow2 a / pow2 b == pow2 (a - b).
Proof.
  unfold Z.sub. rewrite pow2_add, pow2_opp. reflexivity.
Qed.

Lemma Q_num_den q : q * inject_Z (Zpos (Qden q)) == inject_Z (Qnum q).
Proof.
  destruct q as [n d]. unfold Qeq, Qmult, inject_Z. simpl. lia.
Qed.

Lemma Qnum_pos q : 0 < q -> (0 < Qnum q)%Z.
Proof. destruct q as [n d]. unfold Qlt. simpl. lia. Qed.

Lemma qlog2_bounds q :
  0 < q ->
  let k := (Z.log2 (Qnum q) - Z.log2 (Zpos (Qden q)))%Z in
  pow2 (k - 1) < q /\ q < pow2 (k + 1).
Proof.
  intros Hq k.
  pose proof (Qnum_pos Hq) as Hn.
  pose proof (Z.log2_spec _ Hn) as [Hn1 Hn2].
  pose proof (Z.log2_spec (Zpos (Qden q)) eq_refl) as [Hd1 Hd2].
  pose proof (Z.log2_nonneg (Qnum q)) as Ln.
  pose proof (Z.log2_nonneg (Zpos (Qden q))) as Ld.
  set (ln := Z.log2 (Qnum q)) in *. set (ld := Z.log2 (Zpos (Qden q))) in *.
  rewrite Zle_Qle, pow2_inject in Hn1, Hd1 by lia.
  rewrite Zlt_Qlt, pow2_inject in Hn2, Hd2 by lia.
  pose proof (Q_num_den q) as E.
  set (N := inject_Z (Qnum q)) in *. set (D := inject_Z (Zpos (Qden q))) in *.
  assert (HD : 0 < D) by (pose proof (pow2_pos ld); lra).
  split.
  - assert (P : pow2 (k - 1) * pow2 (Z.succ ld) == pow2 ln).
    { rewrite <- pow2_add. unfold k. replace (ln - ld - 1 + Z.succ ld)%Z with ln by lia. reflexivity. }
    pose proof (pow2_pos (k - 1)) as P1.
    destruct (Qlt_le_dec (pow2 (k - 1)) q) as [L | L]; [exact L | exfalso].
    assert (q * D <= pow2 (k - 1) * D) by (apply Qmult_le_compat_r; lra).
    assert (pow2 (k - 1) * D < pow2 (k - 1) * pow2 (Z.succ ld)) by (apply Qmult_lt_l; lra).
    lra.
  - assert (P : pow2 (k + 1) * pow2 ld == pow2 (Z.succ ln)).
    { rewrite <- pow2_add. unfold k. replace (ln - ld + 1 + ld)%Z with (Z.succ ln) by lia. reflexivity. }
    pose proof (pow2_pos (k + 1)) as P1.
    destruct (Qlt_le_dec q (pow2 (k + 1))) as [L | L]; [exact L | exfalso].
    assert (pow2 (k + 1) * D <= q * D) by (apply Qmult_le_compat_r; lra).
    assert (pow2 (k + 1) * pow2 ld <= pow2 (k + 1) * D) by (apply Qmult_le_l; lra).
    lra.
Qed.

Lemma qlog2_spec q : 0 < q -> pow2 (qlog2 q) <= q /\ q < pow2 (qlog2 q + 1).
Proof.
  intros Hq. destruct (qlog2_bounds Hq) as [L U]. unfold qlog2.
  destruct (Qle_bool _ q) eqn:T.
  - apply Qle_bool_iff in T. split; [exact T | exact U].
  - split; [apply Qlt_le_weak; exact L | ].
    set (k := (Z.log2 (Qnum q) - Z.log2 (Zpos (Qden q)))%Z) in *.
    replace (k - 1 + 1)%Z with k by lia.
    apply Qnot_le_lt. intros C. apply Qle_bool_iff in C. congruence.
Qed.

Lemma qlog2_unique q k : pow2 k <= q -> q < pow2 (k + 1) -> qlog2 q = k.
Proof.
  intros L U.
  assert (Hq : 0 < q) by (pose proof (pow2_pos k); lra).
  destruct (qlog2_spec Hq) as [L' U'].
  assert (A : pow2 k < pow2 (qlog2 q + 1)) by lra.
  assert (B : pow2 (qlog2 q) < pow2 (k + 1)) by lra.
  apply pow2_lt_inv in A, B. lia.
Qed.

Lemma qlog2_mono q1 q2 : 0 < q1 -> q1 <= q2 -> (qlog2 q1 <= qlog2 q2)%Z.
Proof.
  intros H1 H12.
  assert (H2 : 0 < q2) by lra.
  destruct (qlog2_spec H1) as [L1 U1]. destruct (qlog2_spec H2) as [L2 U2].
  assert (A : pow2 (qlog2 q1) < pow2 (qlog2 q2 + 1)) by lra.
  apply pow2_lt_inv in A. lia.
Qed.

Lemma qlog2_comp q1 q2 : 0 < q1 -> q1 == q2 -> qlog2 q1 = qlog2 q2.
Proof.
  intros H1 E. assert (H2 : 0 < q2) by lra.
  destruct (qlog2_spec H2) as [L U].
  apply qlog2_unique; lra.
Qed.

(** rne *)
Lemma rne_comp q1 q2 : q1 == q2 -> rne q1 = rne q2.
Proof.
  intros E. unfold rne. rewrite (Qfloor_comp q1 q2 E).
  assert (E' : q1 - inject_Z (Qfloor q2) == q2 - inject_Z (Qfloor q2)) by lra.
  rewrite E'. reflexivity.
Qed.

Lemma rne_cases q :
  (rne q = Qfloor q /\ q - inject_Z (Qfloor q) <= 1 # 2) \/
  (rne q = (Qfloor q + 1)%Z /\ 1 # 2 <= q - inject_Z (Qfloor q)).
Proof.
  unfold rne. destruct (Qcompare_spec (q - inject_Z (Qfloor q)) (1 # 2)) as [E | E | E].
  - destruct (Z.even (Qfloor q)); [left | right]; split; (reflexivity || lra).
  - left. split; [reflexivity | lra].
  - right. split; [reflexivity | lra].
Qed.

Lemma rne_near q : inject_Z (rne q) - (1 # 2) <= q /\ q <= inject_Z (rne q) + (1 # 2).
Proof.
  pose proof (Qfloor_le q). pose proof (Qlt_floor q) as U.
  rewrite inject_Z_plus in U. change (inject_Z 1) with 1 in U.
  destruct (rne_cases q) as [[-> H1] | [-> H1]];
    rewrite ?inject_Z_plus; change (inject_Z 1) with 1; lra.
Qed.

Lemma rne_Z z : rne (inject_Z z) = z.
Proof.
  unfold rne. rewrite Qfloor_Z.
  destruct (Qcompare_spec (inject_Z z - inject_Z z) (1 # 2)) as [E | E | E]; try reflexivity; lra.
Qed.

Lemma rne_mono q1 q2 : q1 <= q2 -> (rne q1 <= rne q2)%Z.
Proof.
  intros H. pose proof (Qfloor_resp_le _ _ H) as F.
  unfold rne.
  destruct (Z.eq_dec (Qfloor q1) (Qfloor q2)) as [E | NE].
  - rewrite E.
    destruct (Qcompare_spec (q1 - inject_Z (Qfloor q2)) (1 # 2)),
             (Qcompare_spec (q2 - inject_Z (Qfloor q2)) (1 # 2));
      try destruct (Z.even (Qfloor q2)); try lia; lra.
  - destruct (Qcompare_spec (q1 - inject_Z (Qfloor q1)) (1 # 2)),
             (Qcompare_spec (q2 - inject_Z (Qfloor q2)) (1 # 2));
      try destruct (Z.even (Qfloor q1)); try destruct (Z.even (Qfloor q2)); lia.
Qed.

Lemma scale_div q e : q / pow2 e == q * pow2 (- e).
Proof. unfold Qdiv. rewrite pow2_opp. reflexivity. Qed.

Lemma scale_lt q a e : q < pow2 a -> q / pow2 e < pow2 (a - e).
Proof.
  intros H. rewrite scale_div. unfold Z.sub. rewrite pow2_add.
  apply Qmult_lt_compat_r; [apply pow2_pos | exact H].
Qed.

Lemma scale_le q a e : pow2 a <= q -> pow2 (a - e) <= q / pow2 e.
Proof.
  intros H. rewrite scale_div. unfold Z.sub. rewrite pow2_add.
  apply Qmult_le_compat_r; [exact H | apply Qlt_le_weak, pow2_pos].
Qed.

Lemma scale_mono q1 q2 e : q1 <= q2 -> q1 / pow2 e <= q2 / pow2 e.
Proof.
  intros H. rewrite !scale_div.
  apply Qmult_le_compat_r; [exact H | apply Qlt_le_weak, pow2_pos].
Qed.

Lemma cexp_ge_emin q : (emin <= cexp q)%Z.
Proof. unfold cexp. lia. Qed.

Lemma cexp_mono q1 q2 : 0 < q1 -> q1 <= q2 -> (cexp q1 <= cexp q2)%Z.
Proof. intros H1 H2. pose proof (qlog2_mono H1 H2). unfold cexp. lia. Qed.

Lemma cexp_comp q1 q2 : 0 < q1 -> q1 == q2 -> cexp q1 = cexp q2.
Proof. intros H E. unfold cexp. now rewrite (qlog2_comp H E). Qed.

Lemma mant_upper q : 0 < q -> (rne (q / pow2 (cexp q)) <= 2 ^ prec)%Z.
Proof.
  intros Hq. destruct (qlog2_spec Hq) as [_ U].
  assert (S : q / pow2 (cexp q) < pow2 prec).
  { eapply Qlt_le_trans; [apply scale_lt, U | ].
    apply pow2_le. unfold cexp, prec. lia. }
  rewrite <- (rne_Z (2 ^ prec)). apply rne_mono.
  rewrite pow2_inject by (unfold prec; lia). lra.
Qed.

Lemma mant_lower q :
  0 < q -> (emin < cexp q)%Z -> (2 ^ (prec - 1) <= rne (q / pow2 (cexp q)))%Z.
Proof.
  intros Hq He. destruct (qlog2_spec Hq) as [L _].
  assert (S : pow2 (prec - 1) <= q / pow2 (cexp q)).
  { eapply Qle_trans; [ | apply scale_le, L].
    apply pow2_le. unfold cexp, prec in *. lia. }
  rewrite <- (rne_Z (2 ^ (prec - 1))). apply rne_mono.
  rewrite pow2_inject by (unfold prec; lia). exact S.
Qed.

Lemma mant_nonneg q : 0 <= q -> (0 <= rne (q / pow2 (cexp q)))%Z.
Proof.
  intros Hq. rewrite <- (rne_Z 0). apply rne_mono.
  rewrite scale_div. apply Qmult_le_0_compat; [exact Hq | apply Qlt_le_weak, pow2_pos].
Qed.

Lemma rnd_val_mono q1 q2 : 0 < q1 -> q1 <= q2 -> rnd_val q1 <= rnd_val q2.
Proof.
  intros H1 H12. assert (H2 : 0 < q2) by lra.
  unfold rnd_val, round_mag.
  pose proof (cexp_mono H1 H12) as He.
  destruct (Z.eq_dec (cexp q1) (cexp q2)) as [E | NE].
  - rewrite E. apply Qmult_le_compat_r; [ | apply Qlt_le_weak, pow2_pos].
    rewrite <- Zle_Qle. apply rne_mono, scale_mono, H12.
  - pose proof (cexp_ge_emin q1) as G1.
    pose proof (mant_upper H1) as U1.
    assert (L2 : (2 ^ (prec - 1) <= rne (q2 / pow2 (cexp q2)))%Z)
      by (apply mant_lower; [exact H2 | lia]).
    rewrite Zle_Qle, pow2_inject in U1, L2 by (unfold prec; lia).
    apply Qle_trans with (pow2 prec * pow2 (cexp q1)).
    { apply Qmult_le_compat_r; [exact U1 | apply Qlt_le_weak, pow2_pos]. }
    apply Qle_trans with (pow2 (prec - 1) * pow2 (cexp q2)).
    { rewrite <- !pow2_add. apply pow2_le. lia. }
    apply Qmult_le_compat_r; [exact L2 | apply Qlt_le_weak, pow2_pos].
Qed.

Lemma rnd_val_comp q1 q2 : 0 < q1 -> q1 == q2 -> rnd_val q1 == rnd_val q2.
Proof.
  intros H E. unfold rnd_val, round_mag. rewrite (cexp_comp H E).
  assert (E' : q1 / pow2 (cexp q2) == q2 / pow2 (cexp q2)) by (rewrite E; reflexivity).
  rewrite (rne_comp E'). reflexivity.
Qed.

Lemma rnd_val_nonneg q : 0 <= q -> 0 <= rnd_val q.
Proof.
  intros H. unfold rnd_val, round_mag.
  apply Qmult_le_0_compat; [ | apply Qlt_le_weak, pow2_pos].
  change 0 with (inject_Z 0). rewrite <- Zle_Qle. apply mant_nonneg, H.
Qed.

Lemma normalize_val m e :
  let '(m', e') := normalize (m, e) in
  inject_Z m' * pow2 e' == inject_Z m * pow2 e.
Proof.
  unfold normalize. destruct (Z.eqb_spec m (2 ^ prec)) as [-> | _]; [ | reflexivity].
  rewrite !pow2_inject by (unfold prec; lia). rewrite <- !pow2_add.
  replace (prec - 1 + (e + 1))%Z with (prec + e)%Z by lia. reflexivity.
Qed.

Lemma sround_mono q1 q2 : q1 <= q2 -> sround q1 <= sround q2.
Proof.
  intros H. unfold sround.
  destruct (Qcompare_spec q1 0) as [E1 | L1 | G1];
    destruct (Qcompare_spec q2 0) as [E2 | L2 | G2]; try lra.
  - pose proof (@rnd_val_nonneg (Qabs q2) (Qabs_nonneg q2)). lra.
  - pose proof (@rnd_val_nonneg (Qabs q1) (Qabs_nonneg q1)). lra.
  - apply Qopp_le_compat. apply rnd_val_mono.
    + rewrite Qabs_neg by lra. lra.
    + rewrite !Qabs_neg by lra. lra.
  - pose proof (@rnd_val_nonneg (Qabs q1) (Qabs_nonneg q1)).
    pose proof (@rnd_val_nonneg (Qabs q2) (Qabs_nonneg q2)). lra.
  - apply rnd_val_mono.
    + rewrite Qabs_pos by lra. lra.
    + rewrite !Qabs_pos by lra. lra.
Qed.

Lemma sround_comp q1 q2 : q1 == q2 -> sround q1 == sround q2.
Proof.
  intros E. apply Qle_antisym; apply sround_mono; lra.
Qed.

Lemma mant_neg_absurd p e : 0 <= inject_Z (Z.neg p) * pow2 e -> False.
Proof.
  intros H. pose proof (pow2_pos e) as P.
  assert (N : inject_Z (Z.neg p) < 0) by (unfold Qlt; simpl; lia).
  assert (0 < (- inject_Z (Z.neg p)) * pow2 e) by (apply Qmult_lt_0_compat; lra).
  lra.
Qed.

Lemma Q2F_cases zs q :
  (is_finite (Q2F zs q) = true /\ F2Q (Q2F zs q) == sround q /\
   Qabs (sround q) < huge) \/
  (Q2F zs q = S754_infinity false /\ huge <= sround q) \/
  (Q2F zs q = S754_infinity true /\ sround q <= - huge).
Proof.
  unfold Q2F, sround.
  pose proof (pow2_pos emax) as HB. fold huge in HB.
  destruct (Qcompare_spec q 0) as [E | L | G].
  - left. repeat split; reflexivity.
  - pose proof (@rnd_val_nonneg (Qabs q) (Qabs_nonneg q)) as NN.
    unfold rnd_val in *. destruct (round_mag (Qabs q)) as [m e].
    pose proof (normalize_val m e) as NV.
    destruct (normalize (m, e)) as [m' e'].
    destruct m' as [ | p | p].
    + assert (Z0 : inject_Z m * pow2 e == 0) by (rewrite <- NV; ring).
      left. split; [reflexivity | ]. split; [cbn [F2Q]; lra | ].
      rewrite Z0. exact HB.
    + fold huge. destruct (Qle_bool huge _) eqn:T.
      * right. right. split; [reflexivity | ].
        apply Qle_bool_iff in T. lra.
      * assert (T' : inject_Z (Z.pos p) * pow2 e' < huge).
        { apply Qnot_le_lt. intros C. apply Qle_bool_iff in C. congruence. }
        left. split; [reflexivity | ]. split; [cbn [F2Q]; lra | ].
        rewrite Qabs_opp, Qabs_pos by lra. lra.
    + exfalso. apply (@mant_neg_absurd p e'). lra.
  - pose proof (@rnd_val_nonneg (Qabs q) (Qabs_nonneg q)) as NN.
    unfold rnd_val in *. destruct (round_mag (Qabs q)) as [m e].
    pose proof (normalize_val m e) as NV.
    destruct (normalize (m, e)) as [m' e'].
    destruct m' as [ | p | p].
    + assert (Z0 : inject_Z m * pow2 e == 0) by (rewrite <- NV; ring).
      left. split; [reflexivity | ]. split; [cbn [F2Q]; lra | ].
      rewrite Z0. exact HB.
    + fold huge. destruct (Qle_bool huge _) eqn:T.
      * right. left. split; [reflexivity | ].
        apply Qle_bool_iff in T. lra.
      * assert (T' : inject_Z (Z.pos p) * pow2 e' < huge).
        { apply Qnot_le_lt. intros C. apply Qle_bool_iff in C. congruence. }
        left. split; [reflexivity | ]. split; [cbn [F2Q]; lra | ].
        rewrite Qabs_pos by lra. lra.
    + exfalso. apply (@mant_neg_absurd p e'). lra.
Qed.

Lemma huge_pos : 0 < huge.
Proof. apply pow2_pos. Qed.

Lemma fval_Q2F zs q :
  (fval (Q2F zs q) == sround q /\ - huge < sround q /\ sround q < huge) \/
  (fval (Q2F zs q) == huge /\ huge <= sround q) \/
  (fval (Q2F zs q) == - huge /\ sround q <= - huge).
Proof.
  destruct (Q2F_cases zs q) as [(F & E & B) | [(-> & B) | (-> & B)]].
  - left. apply Qabs_Qlt_condition in B.
    destruct (Q2F zs q); try discriminate; cbn [fval] in *; repeat split; tauto.
  - right. left. split; [reflexivity | exact B].
  - right. right. split; [reflexivity | exact B].
Qed.

Lemma Q2F_proper zs q : proper (Q2F zs q).
Proof.
  destruct (Q2F_cases zs q) as [(F & E & B) | [(-> & B) | (-> & B)]]; try exact I.
  destruct (Q2F zs q); try discriminate; try exact I.
  unfold proper. rewrite E. exact B.
Qed.

Lemma fval_Q2F_mono z1 z2 q1 q2 :
  q1 <= q2 -> fval (Q2F z1 q1) <= fval (Q2F z2 q2).
Proof.
  intros H. pose proof (sround_mono H) as M. pose proof huge_pos as P.
  destruct (fval_Q2F z1 q1) as [(E1 & L1 & U1) | [(E1 & B1) | (E1 & B1)]];
    destruct (fval_Q2F z2 q2) as [(E2 & L2 & U2) | [(E2 & B2) | (E2 & B2)]];
    lra.
Qed.

Lemma proper_bounds x : proper x -> - huge <= fval x /\ fval x <= huge.
Proof.
  pose proof huge_pos as P.
  destruct x as [s | s | | s m e]; cbn [proper fval]; intros H.
  - cbn [F2Q]. lra.
  - destruct s; lra.
  - contradiction.
  - apply Qabs_Qlt_condition in H. lra.
Qed.

Lemma fcompare_proper x y :
  proper x -> proper y -> fcompare x y = Some (fval x ?= fval y).
Proof.
  pose proof huge_pos as P.
  destruct x as [sx | sx | | sx mx ex]; destruct y as [sy | sy | | sy my ey];
    cbn [proper]; intros Hx Hy; try contradiction;
    try apply Qabs_Qlt_condition in Hx; try apply Qabs_Qlt_condition in Hy;
    cbn [fcompare fval]; try reflexivity;
    try destruct sx; try destruct sy; cbn [F2Q] in *; f_equal; symmetry;
    first [ apply (proj1 (Qlt_alt _ _)); lra | apply (proj1 (Qgt_alt _ _)); lra
          | apply (proj1 (Qeq_alt _ _)); lra ].
Qed.

Lemma fleb_proper x y :
  proper x -> proper y -> (fleb x y = true <-> fval x <= fval y).
Proof.
  intros Hx Hy. unfold fleb. rewrite (fcompare_proper x y Hx Hy).
  destruct (Qcompare_spec (fval x) (fval y)); split; intros; try discriminate; try reflexivity; lra.
Qed.

Lemma fltb_proper x y :
  proper x -> proper y -> (fltb x y = true <-> fval x < fval y).
Proof.
  intros Hx Hy. unfold fltb. rewrite (fcompare_proper x y Hx Hy).
  destruct (Qcompare_spec (fval x) (fval y)); split; intros; try discriminate; try reflexivity; lra.
Qed.

Lemma fgtb_proper x y :
  proper x -> proper y -> (fgtb x y = true <-> fval y < fval x).
Proof.
  intros Hx Hy. unfold fgtb. rewrite (fcompare_proper x y Hx Hy).
  destruct (Qcompare_spec (fval x) (fval y)); split; intros; try discriminate; try reflexivity; lra.
Qed.

Lemma fgeb_proper x y :
  proper x -> proper y -> (fgeb x y = true <-> fval y <= fval x).
Proof.
  intros Hx Hy. unfold fgeb. rewrite (fcompare_proper x y Hx Hy).
  destruct (Qcompare_spec (fval x) (fval y)); split; intros; try discriminate; try reflexivity; lra.
Qed.

Ltac qcompute :=
  lazymatch goal with
  | |- _ == _ => apply Qeq_bool_eq; vm_compute; reflexivity
  | |- _ <= _ => apply Qle_bool_iff; vm_compute; reflexivity
  | |- _ < _ => apply (proj2 (Qlt_alt _ _)); vm_compute; reflexivity
  end.

Lemma rnd_val_0 q : q == 0 -> rnd_val q == 0.
Proof.
  intros E. unfold rnd_val, round_mag.
  assert (E' : q / pow2 (cexp q) == inject_Z 0).
  { generalize (pow2 (cexp q)). intros p. rewrite E. unfold Qdiv.
    change (inject_Z 0) with 0. ring. }
  rewrite (rne_comp E'), rne_Z. change (inject_Z 0) with 0. ring.
Qed.

Lemma rnd_val_below q : 0 <= q -> q < overflow_threshold -> rnd_val q < huge.
Proof.
  intros H0 H. pose proof huge_pos as P.
  destruct (Qeq_dec q 0) as [Z | NZ]; [rewrite (rnd_val_0 Z); exact P | ].
  assert (Hq : 0 < q) by (destruct (Qlt_le_dec 0 q); [assumption | exfalso; apply NZ; lra]).
  destruct (Qlt_le_dec q (pow2 (emax - 1))) as [S | S].
  - apply Qle_lt_trans with (rnd_val (pow2 (emax - 1))).
    + apply rnd_val_mono; lra.
    + qcompute.
  - assert (T : overflow_threshold < pow2 (emax - 1 + 1)) by qcompute.
    assert (L : qlog2 q = (emax - 1)%Z) by (apply qlog2_unique; lra).
    unfold rnd_val, round_mag, cexp. rewrite L.
    change (Z.max (emax - 1 - (prec - 1)) emin) with 971%Z.
    set (s := q / pow2 971).
    assert (Hs : s < inject_Z (2 ^ prec) - (1 # 2)).
    { unfold s. rewrite scale_div.
      apply Qlt_le_trans with (overflow_threshold * pow2 (- 971)).
      - apply Qmult_lt_compat_r; [apply pow2_pos | exact H].
      - qcompute. }
    destruct (rne_near s) as [N1 _].
    assert (M : (rne s < 2 ^ prec)%Z) by (rewrite Zlt_Qlt; lra).
    assert (M' : inject_Z (rne s) <= inject_Z (2 ^ prec - 1)) by (rewrite <- Zle_Qle; lia).
    apply Qle_lt_trans with (inject_Z (2 ^ prec - 1) * pow2 971).
    + apply Qmult_le_compat_r; [exact M' | apply Qlt_le_weak, pow2_pos].
    + qcompute.
Qed.

Lemma rnd_val_above q : overflow_threshold <= q -> huge <= rnd_val q.
Proof.
  intros H. apply Qle_trans with (rnd_val overflow_threshold).
  - qcompute.
  - apply rnd_val_mono; [qcompute | exact H].
Qed.

Lemma rnd_val_dbl_max q : 0 <= q -> rnd_val q < huge -> rnd_val q <= dbl_max.
Proof.
  intros H0 B.
  destruct (Qlt_le_dec q overflow_threshold) as [S | S];
    [ | pose proof (rnd_val_above S); lra].
  destruct (Qlt_le_dec q dbl_max) as [S' | S'].
  - apply Qle_trans with (rnd_val dbl_max); [ | qcompute].
    destruct (Qeq_dec q 0) as [Z | NZ].
    + rewrite (rnd_val_0 Z). qcompute.
    + apply rnd_val_mono; [ | lra].
      destruct (Qlt_le_dec 0 q); [assumption | exfalso; apply NZ; lra].
  - (* dbl_max <= q < threshold: the mantissa is 2^53 - 1 *)
    assert (D0 : pow2 (emax - 1) <= dbl_max) by qcompute.
    assert (T : overflow_threshold < pow2 (emax - 1 + 1)) by qcompute.
    assert (L : qlog2 q = (emax - 1)%Z) by (apply qlog2_unique; lra).
    unfold rnd_val, round_mag, cexp in *. rewrite L in *.
    change (Z.max (emax - 1 - (prec - 1)) emin) with 971%Z in *.
    set (s := q / pow2 971) in *.
    assert (Hs : s < inject_Z (2 ^ prec) - (1 # 2)).
    { unfold s. rewrite scale_div.
      apply Qlt_le_trans with (overflow_threshold * pow2 (- 971)).
      - apply Qmult_lt_compat_r; [apply pow2_pos | exact S].
      - qcompute. }
    destruct (rne_near s) as [N1 _].
    assert (M : (rne s < 2 ^ prec)%Z) by (rewrite Zlt_Qlt; lra).
    assert (M' : inject_Z (rne s) <= inject_Z (2 ^ prec - 1)) by (rewrite <- Zle_Qle; lia).
    apply Qle_trans with (inject_Z (2 ^ prec - 1) * pow2 971).
    + apply Qmult_le_compat_r; [exact M' | apply Qlt_le_weak, pow2_pos].
    + qcompute.
Qed.

Lemma sround_abs q : Qabs (sround q) == rnd_val (Qabs q).
Proof.
  unfold sround. pose proof (@rnd_val_nonneg (Qabs q) (Qabs_nonneg q)) as NN.
  destruct (Qcompare_spec q 0) as [E | L | G].
  - rewrite rnd_val_0; [reflexivity | rewrite E; reflexivity].
  - rewrite Qabs_opp. apply Qabs_pos, NN.
  - apply Qabs_pos, NN.
Qed.

Lemma Q2F_finite_iff zs q :
  is_finite (Q2F zs q) = true <-> Qabs q < overflow_threshold.
Proof.
  pose proof (sround_abs q) as A. pose proof (Qabs_nonneg q) as NN.
  pose proof huge_pos as P.
  split.
  - intros F. destruct (Qlt_le_dec (Qabs q) overflow_threshold) as [S | S]; [exact S | exfalso].
    pose proof (rnd_val_above S) as OV.
    destruct (Q2F_cases zs q) as [(_ & _ & B) | [(E & _) | (E & _)]];
      [lra | rewrite E in F; discriminate | rewrite E in F; discriminate].
  - intros S. pose proof (rnd_val_below NN S) as B.
    destruct (Q2F_cases zs q) as [(F & _) | [(_ & C) | (_ & C)]]; [exact F | exfalso | exfalso].
    + pose proof (Qle_Qabs (sround q)). lra.
    + pose proof (Qle_Qabs (- sround q)). rewrite Qabs_opp in *. lra.
Qed.

Lemma Q2F_finite_dbl_max zs q :
  is_finite (Q2F zs q) = true -> Qabs (F2Q (Q2F zs q)) <= dbl_max.
Proof.
  intros F. destruct (Q2F_cases zs q) as [(_ & E & B) | [(E & _) | (E & _)]];
    [ | rewrite E in F; discriminate | rewrite E in F; discriminate].
  rewrite E. rewrite sround_abs in *. apply rnd_val_dbl_max; [apply Qabs_nonneg | exact B].
Qed.

End Binary64Facts.

(* ================================================================== *)
(** ** Facts about the quality index *)
(* ================================================================== *)

Module QualityFacts.
Import Binary64 Py App NumericVocabulary Binary64Facts.
Local Open Scope Q_scope.

(** results *)
Lemma Ok_inj A (a b : A) : Ok a = Ok b -> a = b.
Proof. intros H. injection H. trivial. Qed.

(** more on floats *)
Lemma fcompare_antisym x y :
  fcompare y x = option_map CompOpp (fcompare x y).
Proof.
  destruct x as [sx | sx | | sx mx ex]; destruct y as [sy | sy | | sy my ey];
    cbn [fcompare option_map]; try reflexivity;
    try (destruct sx; reflexivity); try (destruct sy; reflexivity);
    try (destruct sx, sy; reflexivity);
    now rewrite Qcompare_antisym.
Qed.

Lemma fadd_finite sx mx ex y :
  is_finite y = true ->
  fadd (S754_finite sx mx ex) y = Q2F false (F2Q (S754_finite sx mx ex) + F2Q y).
Proof. destruct y; try discriminate; reflexivity. Qed.

Lemma fmul_finite sx mx ex y :
  is_finite y = true ->
  fmul (S754_finite sx mx ex) y =
  Q2F (xorb sx (sign_of y)) (F2Q (S754_finite sx mx ex) * F2Q y).
Proof. destruct y; try discriminate; reflexivity. Qed.

Lemma F2Q_fopp x : F2Q (fopp x) == - F2Q x.
Proof. destruct x as [s | s | | s m e]; cbn [fopp F2Q]; try destruct s; cbn [negb]; ring. Qed.

Lemma is_finite_fopp x : is_finite (fopp x) = is_finite x.
Proof. destruct x; reflexivity. Qed.

Lemma fval_finite x : is_finite x = true -> fval x = F2Q x.
Proof. destruct x; try discriminate; reflexivity. Qed.

Lemma Q2F_not_nan zs q : Q2F zs q <> S754_nan.
Proof. pose proof (Q2F_proper zs q) as P. intros E. rewrite E in P. exact P. Qed.

Lemma fmul_shape x y :
  fmul x y = S754_nan \/ (exists s, fmul x y = S754_infinity s) \/
  (exists zs q, fmul x y = Q2F zs q).
Proof.
  destruct x as [sx | sx | | sx mx ex]; destruct y as [sy | sy | | sy my ey];
    cbn [fmul]; eauto.
Qed.

Lemma Qabs_div_20000 (a : Z) :
  Qabs (inject_Z a / inject_Z 20000) == inject_Z (Z.abs a) / inject_Z 20000.
Proof.
  unfold Qdiv. rewrite Qabs_Qmult. rewrite (Qabs_pos (/ inject_Z 20000)) by (vm_compute; discriminate).
  apply Qmult_comp; [ | reflexivity].
  unfold Qabs, inject_Z. simpl. reflexivity.
Qed.

Lemma in_range_iff (a : Z) :
  Qabs (inject_Z a / inject_Z 20000) < overflow_threshold <-> (Z.abs a < tx_bound)%Z.
Proof.
  rewrite Qabs_div_20000.
  assert (T : overflow_threshold == inject_Z (2 ^ 1024 - 2 ^ 970)) by qcompute.
  rewrite T. unfold tx_bound.
  assert (C : 0 < inject_Z 20000) by reflexivity.
  rewrite Zlt_Qlt, inject_Z_mult.
  split; intros H.
  - apply Qmult_lt_compat_r with (z := inject_Z 20000) in H; [ | exact C].
    assert (E : inject_Z (Z.abs a) / inject_Z 20000 * inject_Z 20000 == inject_Z (Z.abs a))
      by (field; discriminate).
    lra.
  - apply Qlt_shift_div_r; [exact C | lra].
Qed.

Lemma int_truediv_ok (a : Z) :
  (Z.abs a < tx_bound)%Z ->
  int_truediv a 20000 = Ok (Q2F (a <? 0)%Z (inject_Z a / inject_Z 20000)) /\
  is_finite (Q2F (a <? 0)%Z (inject_Z a / inject_Z 20000)) = true.
Proof.
  intros H. apply in_range_iff in H.
  apply (Q2F_finite_iff (a <? 0)%Z) in H.
  unfold int_truediv. cbn [Z.eqb Z.ltb Z.compare]. rewrite xorb_false_r.
  split; [ | exact H].
  destruct (Q2F _ _); try discriminate; reflexivity.
Qed.

Lemma int_truediv_overflow (a : Z) :
  (tx_bound <= Z.abs a)%Z -> int_truediv a 20000 = Raise OverflowError.
Proof.
  intros H. unfold int_truediv. cbn [Z.eqb Z.ltb Z.compare]. rewrite xorb_false_r.
  destruct (is_finite (Q2F (a <? 0)%Z (inject_Z a / inject_Z 20000))) eqn:F.
  - apply Q2F_finite_iff, in_range_iff in F. lia.
  - destruct (Q2F_cases (a <? 0)%Z (inject_Z a / inject_Z 20000))
      as [(F' & _) | [(-> & _) | (-> & _)]]; [congruence | reflexivity | reflexivity].
Qed.

Lemma lit_1_eq : lit 1 = S754_finite false 4503599627370496 (-52).
Proof. vm_compute. reflexivity. Qed.

Lemma fval_lit_035 : fval (lit 0.35) == 6305039478318694 # 18014398509481984.
Proof. qcompute. Qed.

Lemma fval_lit_1 : fval (lit 1.0) == 1.
Proof. qcompute. Qed.

Lemma clamp_cases raw :
  proper raw ->
  (fval raw <= fval (lit 0.35) /\ clamp raw = lit 0.35) \/
  (fval (lit 0.35) < fval raw /\ fval raw < fval (lit 1.0) /\ clamp raw = raw) \/
  (fval (lit 1.0) <= fval raw /\ clamp raw = lit 1.0).
Proof.
  intros P. unfold clamp, py_max, py_min.
  pose proof (Q2F_proper false 0.35) as P35. fold (lit 0.35) in P35.
  pose proof (Q2F_proper false 1.0) as P1. fold (lit 1.0) in P1.
  pose proof fval_lit_035 as V35. pose proof fval_lit_1 as V1.
  destruct (fgtb raw (lit 0.35)) eqn:G.
  - apply (fgtb_proper _ _ P P35) in G.
    destruct (fltb raw (lit 1.0)) eqn:L.
    + apply (fltb_proper _ _ P P1) in L. right. left. repeat split; assumption.
    + right. right. split; [ | reflexivity].
      destruct (Qlt_le_dec (fval raw) (fval (lit 1.0))) as [C | C]; [ | exact C].
      apply (fltb_proper _ _ P P1) in C. congruence.
  - left.
    assert (L : fltb (lit 0.35) (lit 1.0) = true) by (vm_compute; reflexivity).
    rewrite L. split; [ | reflexivity].
    destruct (Qlt_le_dec (fval (lit 0.35)) (fval raw)) as [C | C]; [ | exact C].
    apply (fgtb_proper _ _ P P35) in C. congruence.
Qed.

Lemma clamp_mono r1 r2 :
  proper r1 -> proper r2 -> fval r1 <= fval r2 ->
  fval (clamp r1) <= fval (clamp r2).
Proof.
  intros P1 P2 H.
  pose proof fval_lit_035 as V35. pose proof fval_lit_1 as V1.
  destruct (clamp_cases r1 P1) as [(A1 & ->) | [(A1 & B1 & ->) | (A1 & ->)]];
    destruct (clamp_cases r2 P2) as [(A2 & ->) | [(A2 & B2 & ->) | (A2 & ->)]];
    lra.
Qed.

Lemma clamp_finite raw : proper raw -> is_finite (clamp raw) = true.
Proof.
  intros P.
  destruct (clamp_cases raw P) as [(A1 & ->) | [(A1 & B1 & ->) | (A1 & ->)]];
    try (vm_compute; reflexivity).
  pose proof fval_lit_035 as V35. pose proof fval_lit_1 as V1.
  assert (H : 2 <= huge) by qcompute.
  destruct raw as [s | s | | s m e]; try reflexivity; try contradiction.
  exfalso. cbn [fval] in *. destruct s; lra.
Qed.

(** 1 - y *)
Lemma raw_val_anti y1 y2 :
  is_finite y1 = true -> is_finite y2 = true -> F2Q y1 <= F2Q y2 ->
  fval (fsub (lit 1) y2) <= fval (fsub (lit 1) y1).
Proof.
  intros F1 F2 H. unfold fsub. rewrite lit_1_eq.
  rewrite !fadd_finite by (rewrite is_finite_fopp; assumption).
  apply fval_Q2F_mono. rewrite !F2Q_fopp. lra.
Qed.

Lemma raw_proper y : is_finite y = true -> proper (fsub (lit 1) y).
Proof.
  intros F. unfold fsub. rewrite lit_1_eq.
  rewrite fadd_finite by (rewrite is_finite_fopp; assumption).
  apply Q2F_proper.
Qed.

Lemma quotient_mono t1 t2 :
  (Z.abs t1 < tx_bound)%Z -> (Z.abs t2 < tx_bound)%Z -> (t1 <= t2)%Z ->
  F2Q (quotient t1) <= F2Q (quotient t2).
Proof.
  intros B1 B2 H.
  destruct (int_truediv_ok t1 B1) as [_ F1]. destruct (int_truediv_ok t2 B2) as [_ F2].
  fold (quotient t1) in F1. fold (quotient t2) in F2.
  rewrite <- (fval_finite _ F1), <- (fval_finite _ F2).
  apply fval_Q2F_mono. apply Qmult_le_compat_r; [ | discriminate].
  rewrite <- Zle_Qle. exact H.
Qed.

Lemma throughput_factor_ok tx :
  (Z.abs tx < tx_bound)%Z ->
  throughput_factor tx = Ok (clamp (fsub (lit 1) (quotient tx))) /\
  is_finite (quotient tx) = true.
Proof.
  intros B. destruct (int_truediv_ok tx B) as [E F].
  unfold throughput_factor. rewrite E. split; [reflexivity | exact F].
Qed.

Lemma throughput_factor_anti t1 t2 :
  (Z.abs t1 < tx_bound)%Z -> (Z.abs t2 < tx_bound)%Z -> (t1 <= t2)%Z ->
  exists f1 f2,
    throughput_factor t1 = Ok f1 /\ throughput_factor t2 = Ok f2 /\
    is_finite f1 = true /\ is_finite f2 = true /\
    F2Q f2 <= F2Q f1 /\ fval (lit 0.35) <= F2Q f2 /\ F2Q f1 <= 1.
Proof.
  intros B1 B2 H.
  destruct (throughput_factor_ok t1 B1) as [E1 F1].
  destruct (throughput_factor_ok t2 B2) as [E2 F2].
  pose proof (raw_proper _ F1) as P1. pose proof (raw_proper _ F2) as P2.
  exists (clamp (fsub (lit 1) (quotient t1))), (clamp (fsub (lit 1) (quotient t2))).
  pose proof (clamp_finite _ P1) as C1. pose proof (clamp_finite _ P2) as C2.
  repeat split; try assumption.
  - rewrite <- (fval_finite _ C1), <- (fval_finite _ C2).
    apply clamp_mono; try assumption.
    apply raw_val_anti; try assumption. apply quotient_mono; assumption.
  - rewrite <- (fval_finite _ C2).
    pose proof fval_lit_035 as V35. pose proof fval_lit_1 as V1.
    destruct (clamp_cases _ P2) as [(A & ->) | [(A & A' & ->) | (A & ->)]]; lra.
  - rewrite <- (fval_finite _ C1).
    pose proof fval_lit_035 as V35. pose proof fval_lit_1 as V1.
    destruct (clamp_cases _ P1) as [(A & ->) | [(A & A' & ->) | (A & ->)]]; lra.
Qed.

(** round(x, 4) *)
Lemma scale10_4 q : scale10 q 4 == q * 10000.
Proof. unfold scale10. apply Qmult_comp; reflexivity. Qed.

Lemma scale10_m4 q : scale10 q (- (4)) == q * (1 # 10000).
Proof. unfold scale10. apply Qmult_comp; reflexivity. Qed.

Lemma round_decimal4_near v :
  v - (1 # 20000) <= round_decimal v 4 /\ round_decimal v 4 <= v + (1 # 20000).
Proof.
  unfold round_decimal. rewrite scale10_m4.
  destruct (rne_near (scale10 v 4)) as [A B]. pose proof (scale10_4 v) as S.
  split; lra.
Qed.

Lemma round_decimal4_mono v1 v2 :
  v1 <= v2 -> round_decimal v1 4 <= round_decimal v2 4.
Proof.
  intros H. unfold round_decimal. rewrite !scale10_m4.
  assert (M : (rne (scale10 v1 4) <= rne (scale10 v2 4))%Z)
    by (apply rne_mono; rewrite !scale10_4; lra).
  rewrite Zle_Qle in M. lra.
Qed.

Lemma round_decimal4_nonneg v : 0 <= v -> 0 <= round_decimal v 4.
Proof.
  intros H. unfold round_decimal. rewrite scale10_m4.
  assert (M : (rne (inject_Z 0) <= rne (scale10 v 4))%Z)
    by (apply rne_mono; rewrite scale10_4; change (inject_Z 0) with 0; lra).
  rewrite rne_Z, Zle_Qle in M. change (inject_Z 0) with 0 in M. lra.
Qed.

Lemma py_round4_finite x :
  is_finite x = true -> Qabs (F2Q x) <= dbl_max ->
  let d := round_decimal (Qabs (F2Q x)) 4 in
  let r := Q2F (sign_of x) (if sign_of x then - d else d) in
  py_round x 4 = Ok r /\ is_finite r = true.
Proof.
  intros F B d r. unfold py_round. rewrite F. cbn [negb].
  change (ndigits_max <? 4)%Z with false. change (4 <? ndigits_min)%Z with false.
  cbn iota. fold d. fold r.
  assert (Fr : is_finite r = true).
  { apply Q2F_finite_iff.
    destruct (round_decimal4_near (Qabs (F2Q x))) as [_ U]. fold d in U.
    pose proof (round_decimal4_nonneg (Qabs_nonneg (F2Q x))) as NN. fold d in NN.
    assert (T : dbl_max + (1 # 20000) < overflow_threshold) by qcompute.
    destruct (sign_of x); [rewrite Qabs_opp | ]; rewrite Qabs_pos by exact NN; lra. }
  split; [ | exact Fr]. destruct r; try discriminate; reflexivity.
Qed.

Lemma py_round4_total_Q2F zs q : exists r, py_round (Q2F zs q) 4 = Ok r.
Proof.
  destruct (is_finite (Q2F zs q)) eqn:F.
  - pose proof (Q2F_finite_dbl_max zs q F) as B.
    destruct (py_round4_finite _ F B) as [E _]. eexists. exact E.
  - exists (Q2F zs q). unfold py_round. rewrite F. reflexivity.
Qed.

Lemma py_round4_total_fmul x y : exists r, py_round (fmul x y) 4 = Ok r.
Proof.
  destruct (fmul_shape x y) as [-> | [[s ->] | (zs & q & ->)]].
  - exists S754_nan. reflexivity.
  - exists (S754_infinity s). reflexivity.
  - apply py_round4_total_Q2F.
Qed.

(** compute_quality_index: totality on the range, overflow outside *)
Lemma compute_quality_index_total system tx :
  (Z.abs tx < tx_bound)%Z -> exists v, compute_quality_index system tx = Ok v.
Proof.
  intros B. destruct (throughput_factor_ok tx B) as [E _].
  unfold compute_quality_index. rewrite E. cbn [bind].
  apply py_round4_total_fmul.
Qed.

Lemma compute_quality_index_overflow system tx :
  (tx_bound <= Z.abs tx)%Z -> compute_quality_index system tx = Raise OverflowError.
Proof.
  intros B. unfold compute_quality_index, throughput_factor.
  rewrite (int_truediv_overflow tx B). reflexivity.
Qed.

(** monotonicity of the rounded product *)
Lemma Q2F_sign_pos zs q : 0 < q -> sign_of (Q2F zs q) = false.
Proof.
  intros H. unfold Q2F. apply (proj1 (Qgt_alt _ _)) in H. rewrite H.
  destruct (normalize (round_mag (Qabs q))) as [m e].
  destruct m; try reflexivity. destruct (Qle_bool _ _); reflexivity.
Qed.

Lemma sround_nonneg q : 0 <= q -> 0 <= sround q.
Proof. intros H. apply (sround_mono H). Qed.

Lemma round_product_anti (c f1 f2 : float) m e :
  c = S754_finite false m e -> F2Q c <= 16 ->
  is_finite f1 = true -> is_finite f2 = true ->
  0 < F2Q f2 -> F2Q f2 <= F2Q f1 -> F2Q f1 <= 1 ->
  exists v1 v2,
    py_round (fmul c f1) 4 = Ok v1 /\ py_round (fmul c f2) 4 = Ok v2 /\
    fgeb v1 v2 = true.
Proof.
  intros -> Hc F1 F2 P2 H12 U1.
  assert (Pc : 0 < F2Q (S754_finite false m e)).
  { cbn [F2Q]. apply Qmult_lt_0_compat; [reflexivity | apply pow2_pos]. }
  rewrite !fmul_finite by assumption.
  set (c := S754_finite false m e) in *.
  assert (T : 16 < overflow_threshold) by qcompute.
  assert (Q1 : 0 < F2Q c * F2Q f1) by (apply Qmult_lt_0_compat; lra).
  assert (Q2 : 0 < F2Q c * F2Q f2) by (apply Qmult_lt_0_compat; lra).
  assert (Q12 : F2Q c * F2Q f2 <= F2Q c * F2Q f1) by (apply Qmult_le_l; lra).
  assert (QU : F2Q c * F2Q f1 <= 16).
  { apply Qle_trans with (F2Q c * 1); [apply Qmult_le_l; lra | lra]. }
  set (x1 := Q2F (xorb false (sign_of f1)) (F2Q c * F2Q f1)).
  set (x2 := Q2F (xorb false (sign_of f2)) (F2Q c * F2Q f2)).
  assert (X1 : is_finite x1 = true) by (apply Q2F_finite_iff; rewrite Qabs_pos; lra).
  assert (X2 : is_finite x2 = true) by (apply Q2F_finite_iff; rewrite Qabs_pos; lra).
  assert (S1 : sign_of x1 = false) by (apply Q2F_sign_pos; exact Q1).
  assert (S2 : sign_of x2 = false) by (apply Q2F_sign_pos; exact Q2).
  assert (V12 : F2Q x2 <= F2Q x1).
  { rewrite <- (fval_finite _ X1), <- (fval_finite _ X2). apply fval_Q2F_mono, Q12. }
  assert (N2 : 0 <= F2Q x2).
  { destruct (Q2F_cases (xorb false (sign_of f2)) (F2Q c * F2Q f2))
      as [(_ & E & _) | [(E & _) | (E & _)]];
      [ | fold x2 in E; rewrite E in X2; discriminate
        | fold x2 in E; rewrite E in X2; discriminate].
    fold x2 in E. rewrite E. apply sround_nonneg. lra. }
  destruct (py_round4_finite x1 X1 (Q2F_finite_dbl_max _ _ X1)) as [E1 R1].
  destruct (py_round4_finite x2 X2 (Q2F_finite_dbl_max _ _ X2)) as [E2 R2].
  rewrite S1 in E1, R1. rewrite S2 in E2, R2.
  eexists. eexists. split; [exact E1 | ]. split; [exact E2 | ].
  apply fgeb_proper; try apply Q2F_proper.
  apply fval_Q2F_mono. apply round_decimal4_mono.
  rewrite !Qabs_pos by lra. exact V12.
Qed.

End QualityFacts.

(* ================================================================== *)
(** ** Facts about the summary and its renderings *)
(* ================================================================== *)

Module SummaryFacts.
Import Binary64 Py App TextVocabulary QualityFacts.
Local Open Scope string_scope.

Lemma build_summary_eq h now system tx :
  build_summary h now system tx =
  (quality_index <- compute_quality_index system tx ;;
   timestamp <- int_of_float now ;;
   let fields := payload system tx quality_index timestamp in
   Ok (fields ++ [("hash", VStr (compute_hash h fields))])%list).
Proof.
  unfold build_summary.
  destruct (compute_quality_index system tx) as [qi | e]; [ | reflexivity].
  cbn [bind]. destruct (int_of_float now) as [ts | e]; reflexivity.
Qed.

Lemma payload_keys system tx qi ts :
  dict_keys (payload system tx qi ts) =
  [ "key"; "name"; "family"; "description"; "proving_complexity";
    "verification_cost"; "privacy_strength"; "soundness_guarantee";
    "txRate"; "qualityIndex"; "timestamp" ].
Proof. reflexivity. Qed.

Lemma payload_sorted system tx qi ts :
  sorted_items (payload system tx qi ts) =
  [ ("description", VStr (description system));
    ("family", VStr (family system));
    ("key", VStr (key system));
    ("name", VStr (name system));
    ("privacy_strength", VFloat (privacy_strength system));
    ("proving_complexity", VFloat (proving_complexity system));
    ("qualityIndex", VFloat qi);
    ("soundness_guarantee", VFloat (soundness_guarantee system));
    ("timestamp", VInt ts);
    ("txRate", VInt tx);
    ("verification_cost", VFloat (verification_cost system)) ].
Proof. reflexivity. Qed.

Lemma payload_sorted_keys system tx qi ts :
  StronglySorted str_lt (dict_keys (sorted_items (payload system tx qi ts))).
Proof.
  rewrite payload_sorted. cbn [dict_keys map fst].
  repeat (constructor; [ | repeat constructor; reflexivity ]). constructor.
Qed.

Lemma build_summary_inv h now system tx d :
  build_summary h now system tx = Ok d ->
  exists qi ts,
    compute_quality_index system tx = Ok qi /\ int_of_float now = Ok ts /\
    d = (payload system tx qi ts
           ++ [("hash", VStr (compute_hash h (payload system tx qi ts)))])%list.
Proof.
  rewrite build_summary_eq.
  destruct (compute_quality_index system tx) as [qi | e]; [ | discriminate].
  cbn [bind]. destruct (int_of_float now) as [ts | e]; [ | discriminate].
  cbn [bind]. intros H. apply Ok_inj in H. exists qi, ts. auto.
Qed.

Lemma payload_determined s1 tx1 qi1 ts1 h1 s2 tx2 qi2 ts2 h2 :
  same_fields (payload s1 tx1 qi1 ts1 ++ [("hash", h1)])%list
              (payload s2 tx2 qi2 ts2 ++ [("hash", h2)])%list ->
  payload s1 tx1 qi1 ts1 = payload s2 tx2 qi2 ts2.
Proof.
  intros H.
  assert (K : forall k v1 v2,
             k <> "hash" ->
             dict_get (payload s1 tx1 qi1 ts1 ++ [("hash", h1)])%list k = Ok v1 ->
             dict_get (payload s2 tx2 qi2 ts2 ++ [("hash", h2)])%list k = Ok v2 ->
             v1 = v2).
  { intros k v1 v2 N E1 E2. specialize (H k N). rewrite E1, E2 in H.
    apply Ok_inj in H. exact H. }
  pose proof (K "key" _ _ ltac:(discriminate) eq_refl eq_refl) as E1.
  pose proof (K "name" _ _ ltac:(discriminate) eq_refl eq_refl) as E2.
  pose proof (K "family" _ _ ltac:(discriminate) eq_refl eq_refl) as E3.
  pose proof (K "description" _ _ ltac:(discriminate) eq_refl eq_refl) as E4.
  pose proof (K "proving_complexity" _ _ ltac:(discriminate) eq_refl eq_refl) as E5.
  pose proof (K "verification_cost" _ _ ltac:(discriminate) eq_refl eq_refl) as E6.
  pose proof (K "privacy_strength" _ _ ltac:(discriminate) eq_refl eq_refl) as E7.
  pose proof (K "soundness_guarantee" _ _ ltac:(discriminate) eq_refl eq_refl) as E8.
  pose proof (K "txRate" _ _ ltac:(discriminate) eq_refl eq_refl) as E9.
  pose proof (K "qualityIndex" _ _ ltac:(discriminate) eq_refl eq_refl) as E10.
  pose proof (K "timestamp" _ _ ltac:(discriminate) eq_refl eq_refl) as E11.
  unfold payload, asdict. congruence.
Qed.

(** strings *)
Lemma append_assoc (a b c : string) : (a ++ b) ++ c = a ++ (b ++ c).
Proof. induction a as [ | ch a IH]; cbn; [reflexivity | now rewrite IH]. Qed.

Lemma append_nil_r (a : string) : a ++ "" = a.
Proof. induction a as [ | ch a IH]; cbn; [reflexivity | now rewrite IH]. Qed.

Section Presenter.
Variable h : Host.
Variables (argv : list string) (now : float).
Variables (ns : Namespace) (sys : ProofSystem) (qi : float) (ts : Z).
Hypothesis Hparse : parse h argv = Parsed ns.
Hypothesis Hsys : lookup_system (system ns) = Ok sys.
Hypothesis Hqi : compute_quality_index sys (tx_rate ns) = Ok qi.
Hypothesis Hts : int_of_float now = Ok ts.

Let digest : string := compute_hash h (payload sys (tx_rate ns) qi ts).

Lemma main_json :
  json ns = true ->
  run_main h argv now =
  {| out :=
       json_object
         [ json_line h "description" (VStr (description sys));
           json_line h "family" (VStr (family sys));
           json_line h "hash" (VStr digest);
           json_line h "key" (VStr (key sys));
           json_line h "name" (VStr (name sys));
           json_line h "privacy_strength" (VFloat (privacy_strength sys));
           json_line h "proving_complexity" (VFloat (proving_complexity sys));
           json_line h "qualityIndex" (VFloat qi);
           json_line h "soundness_guarantee" (VFloat (soundness_guarantee sys));
           json_line h "timestamp" (VInt ts);
           json_line h "txRate" (VInt (tx_rate ns));
           json_line h "verification_cost" (VFloat (verification_cost sys)) ]
       ++ newline;
     err := "";
     status := 0 |}.
Proof.
  intros J. unfold run_main, run, main, parse_args. rewrite Hparse.
  unfold io_bind, io_ret, lift. rewrite Hsys.
  rewrite build_summary_eq, Hqi. cbn [bind]. rewrite Hts. cbn [bind]. rewrite J.
  cbv zeta. fold digest.
  reflexivity.
Qed.

Lemma main_human :
  json ns = false ->
  run_main h argv now =
  {| out :=
       unlines
         [ "🔐 Cryptographic Architecture Model";
           "System: " ++ name sys ++ " (" ++ key sys ++ ")";
           "Family: " ++ family sys;
           "Description: " ++ description sys;
           "";
           "Transactions/sec: " ++ str_of_int (tx_rate ns);
           "Privacy strength: " ++ float_repr h (privacy_strength sys);
           "Soundness guarantee: " ++ float_repr h (soundness_guarantee sys);
           "Proving complexity: " ++ float_repr h (proving_complexity sys);
           "Verification cost:  " ++ float_repr h (verification_cost sys);
           "";
           "🏁 Quality Index: " ++ float_repr h qi;
           "🧬 Metadata hash: " ++ digest ];
     err := "";
     status := 0 |}.
Proof.
  intros J. unfold run_main, run, main, parse_args. rewrite Hparse.
  unfold io_bind, io_ret, lift. rewrite Hsys.
  rewrite build_summary_eq, Hqi. cbn [bind]. rewrite Hts. cbn [bind]. rewrite J.
  cbv zeta. fold digest.
  unfold print_human, field, print, write_stdout, io_bind, io_ret, lift.
  cbn [payload asdict app dict_get String.eqb Ascii.eqb Bool.eqb fmt stdout stderr].
  f_equal. cbn [unlines]. change (newline ++ "") with newline.
  rewrite !append_assoc. reflexivity.
Qed.

End Presenter.

End SummaryFacts.

(* ================================================================== *)
(** ** Facts about the command line *)
(* ================================================================== *)

Module ParserFacts.
Import Binary64 Py App TextVocabulary.
Local Open Scope string_scope.

Section Parser.
Variable h : Host.

Lemma substring_all s : substring 0 (length s) s = s.
Proof. induction s as [ | c s IH]; cbn; [reflexivity | now rewrite IH]. Qed.

Lemma parse_optional_system_eq v :
  parse_optional option_table ("--system=" ++ v) =
  Optional "--system" OptSystem (Some v).
Proof.
  reflexivity.
Qed.

Lemma parse_optional_system : 
  parse_optional option_table "--system" = Optional "--system" OptSystem None.
Proof. reflexivity. Qed.

Lemma parse_optional_json : 
  parse_optional option_table "--json" = Optional "--json" OptJson None.
Proof. reflexivity. Qed.

(** one word at a time *)
Lemma is_argument_class s :
  is_argument option_table s = true ->
  (s =? "--") = false /\ parse_optional option_table s = Positional.
Proof.
  unfold is_argument. intros H. apply andb_true_iff in H. destruct H as [A B].
  split; [now apply negb_true_iff in A | ].
  destruct (parse_optional option_table s); try discriminate. reflexivity.
Qed.









Lemma rejected_outcome argv now e :
  parse h argv = Rejected e -> run_main h argv now = usage_failure h e.
Proof.
  intros E. unfold run_main, run, main, parse_args. rewrite E. reflexivity.
Qed.

Lemma help_outcome argv now :
  parse h argv = HelpExit ->
  run_main h argv now = {| out := format_help h; err := ""; status := 0 |}.
Proof.
  intros E. unfold run_main, run, main, parse_args. rewrite E. reflexivity.
Qed.

End Parser.

End ParserFacts.

Unset Implicit Arguments.

(* ================================================================== *)
(** ** The throughput factor over the range of the division *)
(* ================================================================== *)

Module RangeFacts.
Import Binary64 Py App NumericVocabulary Binary64Facts QualityFacts.
Local Open Scope Q_scope.

Lemma tx_bound_pos : (13000 < tx_bound)%Z.
Proof. vm_compute. reflexivity. Qed.

Lemma clamp_range raw :
  proper raw ->
  fleb (lit 0.35) (clamp raw) = true /\ fleb (clamp raw) (lit 1.0) = true.
Proof.
  intros P.
  pose proof (Q2F_proper false 0.35) as P35. fold (lit 0.35) in P35.
  pose proof (Q2F_proper false 1.0) as P1. fold (lit 1.0) in P1.
  pose proof fval_lit_035 as V35. pose proof fval_lit_1 as V1.
  destruct (clamp_cases raw P) as [(A & ->) | [(A & B & ->) | (A & ->)]];
    split; apply fleb_proper; try assumption; lra.
Qed.

Lemma clamp_high raw :
  proper raw -> fgeb raw (lit 1.0) = true -> clamp raw = lit 1.0.
Proof.
  intros P G.
  pose proof (Q2F_proper false 1.0) as P1. fold (lit 1.0) in P1.
  apply (fgeb_proper _ _ P P1) in G.
  pose proof fval_lit_035 as V35. pose proof fval_lit_1 as V1.
  destruct (clamp_cases raw P) as [(A & ->) | [(A & B & ->) | (A & ->)]];
    [exfalso; lra | exfalso; lra | reflexivity].
Qed.

Lemma clamp_low raw :
  proper raw -> fval raw <= fval (lit 0.35) -> clamp raw = lit 0.35.
Proof.
  intros P G.
  pose proof fval_lit_035 as V35. pose proof fval_lit_1 as V1.
  destruct (clamp_cases raw P) as [(A & ->) | [(A & B & ->) | (A & ->)]];
    [reflexivity | exfalso; lra | exfalso; lra].
Qed.

Lemma quotient_finite tx :
  (Z.abs tx < tx_bound)%Z -> is_finite (quotient tx) = true.
Proof. intros B. apply (int_truediv_ok tx B). Qed.

Lemma throughput_factor_nonpositive tx :
  (Z.abs tx < tx_bound)%Z -> (tx <= 0)%Z -> throughput_factor tx = Ok (lit 1.0).
Proof.
  intros B H. destruct (throughput_factor_ok tx B) as [E F]. rewrite E. f_equal.
  pose proof (raw_proper _ F) as P.
  pose proof (Q2F_proper false 1.0) as P1. fold (lit 1.0) in P1.
  apply clamp_high; [exact P | ]. apply fgeb_proper; [exact P | exact P1 | ].
  assert (B0 : (Z.abs 0 < tx_bound)%Z) by (vm_compute; reflexivity).
  apply Qle_trans with (fval (fsub (lit 1) (quotient 0))); [qcompute | ].
  apply raw_val_anti; [exact F | apply quotient_finite, B0 | ].
  apply quotient_mono; assumption.
Qed.

Lemma throughput_factor_saturated tx :
  (Z.abs tx < tx_bound)%Z -> (13000 <= tx)%Z -> throughput_factor tx = Ok (lit 0.35).
Proof.
  intros B H. destruct (throughput_factor_ok tx B) as [E F]. rewrite E. f_equal.
  pose proof (raw_proper _ F) as P.
  apply clamp_low; [exact P | ].
  assert (B0 : (Z.abs 13000 < tx_bound)%Z) by (vm_compute; reflexivity).
  apply Qle_trans with (fval (fsub (lit 1) (quotient 13000))); [ | qcompute].
  apply raw_val_anti; [apply quotient_finite, B0 | exact F | ].
  apply quotient_mono; assumption.
Qed.

Lemma throughput_factor_overflow tx :
  (tx_bound <= Z.abs tx)%Z -> throughput_factor tx = Raise OverflowError.
Proof.
  intros B. unfold throughput_factor. rewrite (int_truediv_overflow tx B). reflexivity.
Qed.

Lemma catalog_margin r :
  In r (map snd SYSTEMS) ->
  exists m e,
    fsub (benefit r) (penalty r) = S754_finite false m e /\
    F2Q (fsub (benefit r) (penalty r)) <= 16.
Proof.
  cbn [SYSTEMS map snd In].
  intros [<- | [<- | [<- | []]]].
  - exists 7468094082087126%positive, (-50)%Z. split; [vm_compute; reflexivity | qcompute].
  - exists 7044755717114298%positive, (-50)%Z. split; [vm_compute; reflexivity | qcompute].
  - exists 7000845620747436%positive, (-50)%Z. split; [vm_compute; reflexivity | qcompute].
Qed.

Lemma positive_finite_gt_zero m e : fgtb (S754_finite false m e) (lit 0) = true.
Proof.
  change (lit 0) with (S754_zero false). unfold fgtb. cbn [fcompare F2Q].
  assert (P : 0 < inject_Z (Z.pos m) * pow2 e)
    by (apply Qmult_lt_0_compat; [reflexivity | apply pow2_pos]).
  apply (proj1 (Qgt_alt _ _)) in P. rewrite P. reflexivity.
Qed.

Lemma clamp_proper raw : proper raw -> proper (clamp raw).
Proof.
  intros P.
  destruct (clamp_cases raw P) as [(A & ->) | [(A & B & ->) | (A & ->)]];
    [apply Q2F_proper | exact P | apply Q2F_proper].
Qed.

Lemma throughput_factor_geb t1 t2 :
  (Z.abs t1 < tx_bound)%Z -> (Z.abs t2 < tx_bound)%Z -> (t1 <= t2)%Z ->
  exists f1 f2,
    throughput_factor t1 = Ok f1 /\ throughput_factor t2 = Ok f2 /\
    fgeb f1 f2 = true.
Proof.
  intros B1 B2 H.
  destruct (throughput_factor_ok t1 B1) as [E1 F1].
  destruct (throughput_factor_ok t2 B2) as [E2 F2].
  pose proof (raw_proper _ F1) as P1. pose proof (raw_proper _ F2) as P2.
  eexists. eexists. split; [exact E1 | ]. split; [exact E2 | ].
  apply fgeb_proper; try (apply clamp_proper; assumption).
  apply clamp_mono; try assumption.
  apply raw_val_anti; try assumption. apply quotient_mono; assumption.
Qed.

End RangeFacts.

(* ================================================================== *)
(** ** The claims of the specification *)
(* ================================================================== *)

Import Binary64 Py App NumericVocabulary TextVocabulary.
Import Binary64Facts QualityFacts RangeFacts SummaryFacts ParserFacts.

Section NumericClaims.
Local Open Scope Q_scope.

(** *** C1 *)

(** C1. For the catalog record [aztec] and a transaction rate of 0,
    [compute_quality_index] returns exactly the float 6.633.  The throughput
    factor is exactly 1.0; in exact arithmetic the benefit is 7.518 and the
    penalty 0.885; in binary64 the penalty is the float 0.885 and the benefit
    is 7.518 once rounded to four places, and rounding (7.518 - 0.885) * 1.0
    to four places gives 6.633. *)
Theorem quality_index_aztec_at_zero :
  compute_quality_index aztec 0 = Ok (lit 6.633) /\
  throughput_factor 0 = Ok (lit 1.0) /\
  0.42 * 9.3 + 0.43 * 8.4 == 7.518 /\
  0.10 * 7.8 + 0.05 * 2.1 == 0.885 /\
  py_round (benefit aztec) 4 = Ok (lit 7.518) /\
  penalty aztec = lit 0.885 /\
  py_round (fmul (fsub (lit 7.518) (lit 0.885)) (lit 1.0)) 4 = Ok (lit 6.633).
Proof.
  repeat split; vm_compute; reflexivity.
Qed.

(** *** C4 *)

(** C4. For the catalog record [aztec] and a transaction rate of 20000 the
    throughput factor is exactly 0.35 and [compute_quality_index] returns
    2.3216, one of the two values the claim allows: the product that is
    rounded lies strictly above the tie 2.32155. *)
Theorem quality_index_aztec_at_20000 :
  throughput_factor 20000 = Ok (lit 0.35) /\
  compute_quality_index aztec 20000 = Ok (lit 2.3216) /\
  (compute_quality_index aztec 20000 = Ok (lit 2.3216) \/
   compute_quality_index aztec 20000 = Ok (lit 2.3215)) /\
  2.32155 < F2Q (fmul (fsub (benefit aztec) (penalty aztec)) (lit 0.35)).
Proof.
  split; [vm_compute; reflexivity | ].
  split; [vm_compute; reflexivity | ].
  split; [left; vm_compute; reflexivity | qcompute].
Qed.

(** *** C8 *)

(** C8. The catalog has exactly three entries, with keys aztec, zama and
    soundness; looking up any of these keys gives a record whose [key] field
    is the key, and no other key is present. *)
Theorem catalog_three_entries :
  dict_keys SYSTEMS = ["aztec"; "zama"; "soundness"]%string /\
  List.length SYSTEMS = 3%nat /\
  Forall (fun k => exists r, lookup_system k = Ok r /\ key r = k)
         (dict_keys SYSTEMS) /\
  (forall k r, lookup_system k = Ok r -> In k (dict_keys SYSTEMS) /\ key r = k).
Proof.
  split; [reflexivity | ]. split; [reflexivity | ]. split.
  - repeat constructor; eexists; split; reflexivity.
  - intros k r. unfold lookup_system, SYSTEMS. cbn [dict_get dict_keys map fst].
    destruct (String.eqb_spec "aztec" k) as [<- | _];
      [intros H; injection H as <-; split; [cbn; auto | reflexivity] | ].
    destruct (String.eqb_spec "zama" k) as [<- | _];
      [intros H; injection H as <-; split; [cbn; auto | reflexivity] | ].
    destruct (String.eqb_spec "soundness" k) as [<- | _];
      [intros H; injection H as <-; split; [cbn; auto | reflexivity] | ].
    discriminate.
Qed.

Lemma catalog_three_entries_witness :
  lookup_system "zama" = Ok zama /\
  (In "zama"%string (dict_keys SYSTEMS) /\ key zama = "zama"%string).
Proof.
  split; [reflexivity | ].
  apply (proj2 (proj2 (proj2 catalog_three_entries)) "zama"%string zama).
  reflexivity.
Defined.

(** *** C3 *)

(** C3, as stated, fails: a rate of 10^400 is an integer not below 13000,
    and the division raises [OverflowError] instead of giving the factor
    0.35. *)
Lemma throughput_factor_huge_rate_raises :
  (13000 <= 10 ^ 400)%Z /\ throughput_factor (10 ^ 400) = Raise OverflowError.
Proof. split; vm_compute; [discriminate | reflexivity]. Qed.

(** C3, amended. For every integer rate of magnitude below
    [20000 * (2^1024 - 2^970)] the throughput factor is computed and lies in
    [0.35, 1.0]; it is 1.0 whenever the float [1 - tx_rate / 20000] is at
    least 1.0, in particular for every rate that is not positive (so for
    every rate up to -13000), and it is 0.35 for every rate from 13000 on.
    From that magnitude on the division raises [OverflowError]. *)
Theorem throughput_factor_clamped (tx : Z) :
  ((Z.abs tx < tx_bound)%Z ->
   exists y f,
     int_truediv tx 20000 = Ok y /\
     throughput_factor tx = Ok f /\
     fleb (lit 0.35) f = true /\ fleb f (lit 1.0) = true /\
     (fgeb (fsub (lit 1) y) (lit 1.0) = true -> f = lit 1.0) /\
     ((tx <= 0)%Z -> f = lit 1.0) /\
     ((13000 <= tx)%Z -> f = lit 0.35)) /\
  ((tx_bound <= Z.abs tx)%Z -> throughput_factor tx = Raise OverflowError).
Proof.
  split; [ | apply throughput_factor_overflow].
  intros B. destruct (throughput_factor_ok tx B) as [E F].
  destruct (int_truediv_ok tx B) as [D _]. fold (quotient tx) in D.
  pose proof (raw_proper _ F) as P.
  exists (quotient tx), (clamp (fsub (lit 1) (quotient tx))).
  split; [exact D | ]. split; [exact E | ].
  destruct (clamp_range _ P) as [R1 R2].
  split; [exact R1 | ]. split; [exact R2 | ].
  split; [apply clamp_high, P | ]. split.
  - intros H. pose proof (throughput_factor_nonpositive tx B H) as T.
    rewrite E in T. apply Ok_inj in T. exact T.
  - intros H. pose proof (throughput_factor_saturated tx B H) as T.
    rewrite E in T. apply Ok_inj in T. exact T.
Qed.

Lemma throughput_factor_clamped_witness :
  (Z.abs 15000 < tx_bound)%Z /\
  exists y f,
    int_truediv 15000 20000 = Ok y /\
    throughput_factor 15000 = Ok f /\
    fleb (lit 0.35) f = true /\ fleb f (lit 1.0) = true /\
    (fgeb (fsub (lit 1) y) (lit 1.0) = true -> f = lit 1.0) /\
    ((15000 <= 0)%Z -> f = lit 1.0) /\
    ((13000 <= 15000)%Z -> f = lit 0.35).
Proof.
  assert (B : (Z.abs 15000 < tx_bound)%Z) by (vm_compute; reflexivity).
  split; [exact B | exact (proj1 (throughput_factor_clamped 15000) B)].
Defined.

(** *** C9 *)

(** C9, as stated, fails: on the very large rate 10^400 the function
    returns no float but raises [OverflowError]. *)
Lemma quality_index_huge_rate_raises :
  compute_quality_index aztec (10 ^ 400) = Raise OverflowError.
Proof. vm_compute. reflexivity. Qed.

(** C9, amended. For every record and every integer rate of magnitude below
    [20000 * (2^1024 - 2^970)], negative rates included,
    [compute_quality_index] returns a float; from that magnitude on it raises
    [OverflowError]; and it is a function of the pair (record, rate). *)
Theorem quality_index_total_in_range (system : ProofSystem) (tx : Z) :
  ((Z.abs tx < tx_bound)%Z ->
   exists v, compute_quality_index system tx = Ok v) /\
  ((tx_bound <= Z.abs tx)%Z ->
   compute_quality_index system tx = Raise OverflowError) /\
  (forall r1 r2,
     compute_quality_index system tx = r1 ->
     compute_quality_index system tx = r2 -> r1 = r2).
Proof.
  split; [apply compute_quality_index_total | ].
  split; [apply compute_quality_index_overflow | ].
  intros r1 r2 <- <-. reflexivity.
Qed.

Lemma quality_index_total_in_range_witness :
  (Z.abs (- (10 ^ 300)) < tx_bound)%Z /\
  exists v, compute_quality_index zama (- (10 ^ 300)) = Ok v.
Proof.
  assert (B : (Z.abs (- (10 ^ 300)) < tx_bound)%Z) by (vm_compute; reflexivity).
  split; [exact B | ].
  exact (proj1 (quality_index_total_in_range zama (- (10 ^ 300))) B).
Defined.

(** *** C10 *)

(** C10, as stated, fails: 0 <= 10^400, the index at 0 is 6.633, and at
    10^400 there is no index to compare it with, the call raises
    [OverflowError]. *)
Lemma quality_index_monotone_huge_rate_fails :
  (0 <= 10 ^ 400)%Z /\
  compute_quality_index aztec 0 = Ok (lit 6.633) /\
  compute_quality_index aztec (10 ^ 400) = Raise OverflowError.
Proof. repeat split; vm_compute; (discriminate || reflexivity). Qed.

(** C10, amended. For each of the three catalog records and all integer
    rates [t1 <= t2] of magnitude below [20000 * (2^1024 - 2^970)], both
    indices are computed and the one at [t1] is greater than or equal to the
    one at [t2]: benefit minus penalty is strictly positive, and the
    throughput factor does not increase with the rate. *)
Theorem quality_index_nonincreasing (r : ProofSystem) (t1 t2 : Z) :
  In r (map snd SYSTEMS) ->
  (Z.abs t1 < tx_bound)%Z -> (Z.abs t2 < tx_bound)%Z -> (t1 <= t2)%Z ->
  fgtb (fsub (benefit r) (penalty r)) (lit 0) = true /\
  (exists f1 f2,
     throughput_factor t1 = Ok f1 /\ throughput_factor t2 = Ok f2 /\
     fgeb f1 f2 = true) /\
  (exists v1 v2,
     compute_quality_index r t1 = Ok v1 /\
     compute_quality_index r t2 = Ok v2 /\
     fgeb v1 v2 = true).
Proof.
  intros I B1 B2 H.
  destruct (catalog_margin r I) as (m & e & C & U).
  destruct (throughput_factor_anti B1 B2 H)
    as (f1 & f2 & E1 & E2 & F1 & F2 & A & L & U1).
  pose proof fval_lit_035 as V35.
  split; [rewrite C; apply positive_finite_gt_zero | ].
  split; [apply throughput_factor_geb; assumption | ].
  unfold compute_quality_index. rewrite E1, E2. cbn [bind].
  apply (@round_product_anti _ f1 f2 m e C U F1 F2); lra.
Qed.

Lemma quality_index_nonincreasing_witness :
  In soundness (map snd SYSTEMS) /\
  (Z.abs (-7) < tx_bound)%Z /\ (Z.abs 12345 < tx_bound)%Z /\ (-7 <= 12345)%Z /\
  exists v1 v2,
    compute_quality_index soundness (-7) = Ok v1 /\
    compute_quality_index soundness 12345 = Ok v2 /\
    fgeb v1 v2 = true.
Proof.
  assert (I : In soundness (map snd SYSTEMS)) by (cbn; auto).
  assert (B1 : (Z.abs (-7) < tx_bound)%Z) by (vm_compute; reflexivity).
  assert (B2 : (Z.abs 12345 < tx_bound)%Z) by (vm_compute; reflexivity).
  assert (H : (-7 <= 12345)%Z) by lia.
  repeat (split; [assumption | ]).
  exact (proj2 (proj2 (quality_index_nonincreasing soundness (-7) 12345 I B1 B2 H))).
Defined.

End NumericClaims.

Section TextClaims.
Local Open Scope string_scope.

(** *** C2 *)

(** C2. [build_summary] computes the [hash] field over the other eleven
    fields (the eight fields of the record, then [txRate], [qualityIndex] and
    [timestamp]), [hash] itself left out: it is the digest of the UTF-8 bytes
    of their JSON text, written with the keys in increasing order.  Hence two
    calls whose summaries agree on every field but [hash] (the same field
    values and the same timestamp) carry the same digest. *)
Theorem hash_covers_other_fields (h : Host) :
  (forall now system tx,
     build_summary h now system tx =
     (quality_index <- compute_quality_index system tx ;;
      timestamp <- int_of_float now ;;
      let fields := payload system tx quality_index timestamp in
      let enc := str_encode (json_dumps h None true fields) in
      Ok (fields ++ [("hash", VStr (sha256_hexdigest h enc))])%list)) /\
  (forall system tx qi ts,
     dict_keys (payload system tx qi ts) =
       [ "key"; "name"; "family"; "description"; "proving_complexity";
         "verification_cost"; "privacy_strength"; "soundness_guarantee";
         "txRate"; "qualityIndex"; "timestamp" ] /\
     json_dumps h None true (payload system tx qi ts) =
       "{" ++ String.concat ", "
                (map (json_item h) (sorted_items (payload system tx qi ts)))
           ++ "}" /\
     StronglySorted str_lt
       (dict_keys (sorted_items (payload system tx qi ts)))) /\
  (forall now1 s1 tx1 d1 now2 s2 tx2 d2,
     build_summary h now1 s1 tx1 = Ok d1 ->
     build_summary h now2 s2 tx2 = Ok d2 ->
     same_fields d1 d2 ->
     dict_get d1 "hash" = dict_get d2 "hash").
Proof.
  split; [ | split].
  - intros. apply build_summary_eq.
  - intros. split; [reflexivity | ]. split; [reflexivity | apply payload_sorted_keys].
  - intros now1 s1 tx1 d1 now2 s2 tx2 d2 B1 B2 S.
    destruct (build_summary_inv _ _ _ _ B1) as (qi1 & ts1 & _ & _ & ->).
    destruct (build_summary_inv _ _ _ _ B2) as (qi2 & ts2 & _ & _ & ->).
    apply payload_determined in S. rewrite S. reflexivity.
Qed.

Lemma hash_covers_other_fields_witness :
  exists d1 d2,
    build_summary Sample.host Sample.noon aztec 0 = Ok d1 /\
    build_summary Sample.host Sample.noon_later aztec 0 = Ok d2 /\
    same_fields d1 d2 /\
    dict_get d1 "hash" = dict_get d2 "hash".
Proof.
  eexists. eexists.
  split; [vm_compute; reflexivity | ].
  split; [vm_compute; reflexivity | ].
  split; [intros k _; reflexivity | ].
  apply (proj2 (proj2 (hash_covers_other_fields Sample.host))
           Sample.noon aztec 0%Z _ Sample.noon_later aztec 0%Z _).
  - vm_compute; reflexivity.
  - vm_compute; reflexivity.
  - intros k _; reflexivity.
Defined.

(** *** C5 *)

(** C5. In JSON mode a run that gets through prints one JSON object and
    exits with status 0: the summary has the twelve fields [key], [name],
    [family], [description], [proving_complexity], [verification_cost],
    [privacy_strength], [soundness_guarantee], [txRate], [qualityIndex],
    [timestamp] and [hash], and the text has one line per field, the keys in
    increasing order, each line indented by two spaces. *)
Theorem json_output_layout (h : Host) (argv : list string) (now : float)
  (ns : Namespace) (sys : ProofSystem) (qi : float) (ts : Z) :
  parse h argv = Parsed ns ->
  json ns = true ->
  lookup_system (system ns) = Ok sys ->
  compute_quality_index sys (tx_rate ns) = Ok qi ->
  int_of_float now = Ok ts ->
  exists data,
    build_summary h now sys (tx_rate ns) = Ok data /\
    dict_keys data =
      [ "key"; "name"; "family"; "description"; "proving_complexity";
        "verification_cost"; "privacy_strength"; "soundness_guarantee";
        "txRate"; "qualityIndex"; "timestamp"; "hash" ] /\
    dict_get data "hash" =
      Ok (VStr (compute_hash h (payload sys (tx_rate ns) qi ts))) /\
    run_main h argv now =
    {| out :=
         json_object
           [ json_line h "description" (VStr (description sys));
             json_line h "family" (VStr (family sys));
             json_line h "hash"
               (VStr (compute_hash h (payload sys (tx_rate ns) qi ts)));
             json_line h "key" (VStr (key sys));
             json_line h "name" (VStr (name sys));
             json_line h "privacy_strength" (VFloat (privacy_strength sys));
             json_line h "proving_complexity"
               (VFloat (proving_complexity sys));
             json_line h "qualityIndex" (VFloat qi);
             json_line h "soundness_guarantee"
               (VFloat (soundness_guarantee sys));
             json_line h "timestamp" (VInt ts);
             json_line h "txRate" (VInt (tx_rate ns));
             json_line h "verification_cost"
               (VFloat (verification_cost sys)) ]
         ++ newline;
       err := "";
       status := 0 |}.
Proof.
  intros Hparse J Hsys Hqi Hts.
  eexists. split.
  - rewrite build_summary_eq, Hqi. cbn [bind]. rewrite Hts. cbn [bind].
    cbv zeta. reflexivity.
  - split; [reflexivity | ]. split; [reflexivity | ].
    exact (@main_json h argv now ns sys qi ts Hparse Hsys Hqi Hts J).
Qed.

Lemma json_output_layout_witness :
  let argv := ["5000"; "--system"; "zama"; "--json"] in
  let ns := {| tx_rate := 5000; system := "zama"; json := true |} in
  let qi := S754_finite false 5283623082831066 (-50) in
  let ts := 1762214400%Z in
  parse Sample.host argv = Parsed ns /\
  json ns = true /\
  lookup_system (system ns) = Ok zama /\
  compute_quality_index zama (tx_rate ns) = Ok qi /\
  int_of_float Sample.noon = Ok ts /\
  status (run_main Sample.host argv Sample.noon) = 0%Z /\
  out (run_main Sample.host argv Sample.noon) =
    json_object
      [ json_line Sample.host "description" (VStr (description zama));
        json_line Sample.host "family" (VStr (family zama));
        json_line Sample.host "hash" (VStr "422");
        json_line Sample.host "key" (VStr "zama");
        json_line Sample.host "name" (VStr (name zama));
        json_line Sample.host "privacy_strength" (VFloat (lit 8.7));
        json_line Sample.host "proving_complexity" (VFloat (lit 9.2));
        json_line Sample.host "qualityIndex" (VFloat qi);
        json_line Sample.host "soundness_guarantee" (VFloat (lit 9.1));
        json_line Sample.host "timestamp" (VInt ts);
        json_line Sample.host "txRate" (VInt 5000);
        json_line Sample.host "verification_cost" (VFloat (lit 7.8)) ]
      ++ newline.
Proof.
  intros argv ns qi ts.
  assert (H1 : parse Sample.host argv = Parsed ns) by (vm_compute; reflexivity).
  assert (H2 : json ns = true) by reflexivity.
  assert (H3 : lookup_system (system ns) = Ok zama) by reflexivity.
  assert (H4 : compute_quality_index zama (tx_rate ns) = Ok qi)
    by (vm_compute; reflexivity).
  assert (H5 : int_of_float Sample.noon = Ok ts) by (vm_compute; reflexivity).
  repeat (split; [assumption | ]).
  destruct (json_output_layout Sample.host argv Sample.noon ns zama qi ts
              H1 H2 H3 H4 H5) as (data & _ & _ & _ & R).
  rewrite R. split; vm_compute; reflexivity.
Defined.

(** *** C6 *)

(** C6. In human mode a run that gets through prints exactly thirteen
    lines, in this order: the header, [System: <name> (<key>)], [Family],
    [Description], an empty line, [Transactions/sec], [Privacy strength],
    [Soundness guarantee], [Proving complexity], [Verification cost], an empty
    line, the quality index and the metadata hash. *)
Theorem human_output_layout (h : Host) (argv : list string) (now : float)
  (ns : Namespace) (sys : ProofSystem) (qi : float) (ts : Z) :
  parse h argv = Parsed ns ->
  json ns = false ->
  lookup_system (system ns) = Ok sys ->
  compute_quality_index sys (tx_rate ns) = Ok qi ->
  int_of_float now = Ok ts ->
  run_main h argv now =
  {| out :=
       unlines
         [ "🔐 Cryptographic Architecture Model";
           "System: " ++ name sys ++ " (" ++ key sys ++ ")";
           "Family: " ++ family sys;
           "Description: " ++ description sys;
           "";
           "Transactions/sec: " ++ str_of_int (tx_rate ns);
           "Privacy strength: " ++ float_repr h (privacy_strength sys);
           "Soundness guarantee: " ++ float_repr h (soundness_guarantee sys);
           "Proving complexity: " ++ float_repr h (proving_complexity sys);
           "Verification cost:  " ++ float_repr h (verification_cost sys);
           "";
           "🏁 Quality Index: " ++ float_repr h qi;
           "🧬 Metadata hash: "
             ++ compute_hash h (payload sys (tx_rate ns) qi ts) ];
     err := "";
     status := 0 |}.
Proof.
  intros Hparse J Hsys Hqi Hts.
  exact (@main_human h argv now ns sys qi ts Hparse Hsys Hqi Hts J).
Qed.

Lemma human_output_layout_witness :
  let ns := {| tx_rate := 0; system := "aztec"; json := false |} in
  let ts := 1762214400%Z in
  parse Sample.host ["0"] = Parsed ns /\
  json ns = false /\
  lookup_system (system ns) = Ok aztec /\
  compute_quality_index aztec (tx_rate ns) = Ok (lit 6.633) /\
  int_of_float Sample.noon = Ok ts /\
  run_main Sample.host ["0"] Sample.noon =
  {| out :=
       unlines
         [ "🔐 Cryptographic Architecture Model";
           "System: Aztec Noir-style ZK System (aztec)";
           "Family: ZK-SNARK privacy model";
           "Description: A zk system enabling encrypted transactions and private state.";
           "";
           "Transactions/sec: 0";
           "Privacy strength: 5235434566818202p-49";
           "Soundness guarantee: 4728779608739021p-49";
           "Proving complexity: 8782019273372467p-50";
           "Verification cost:  4728779608739021p-51";
           "";
           "🏁 Quality Index: 7468094082087125p-50";
           "🧬 Metadata hash: 421" ];
     err := "";
     status := 0 |}.
Proof.
  intros ns ts.
  assert (H1 : parse Sample.host ["0"] = Parsed ns) by (vm_compute; reflexivity).
  assert (H2 : json ns = false) by reflexivity.
  assert (H3 : lookup_system (system ns) = Ok aztec) by reflexivity.
  assert (H4 : compute_quality_index aztec (tx_rate ns) = Ok (lit 6.633))
    by (vm_compute; reflexivity).
  assert (H5 : int_of_float Sample.noon = Ok ts) by (vm_compute; reflexivity).
  repeat (split; [assumption | ]).
  rewrite (human_output_layout Sample.host ["0"] Sample.noon ns aztec
             (lit 6.633) ts H1 H2 H3 H4 H5).
  vm_compute. reflexivity.
Defined.

(** *** C7 *)




End TextClaims.

(* ================================================================== *)
(** ** More about the quality index *)
(* ================================================================== *)

Module IndexFacts.
Import Binary64 Py App NumericVocabulary Binary64Facts QualityFacts RangeFacts.
Local Open Scope Q_scope.

Lemma fgeb_fleb x y : fgeb x y = true -> fleb y x = true.
Proof.
  unfold fgeb, fleb. rewrite (fcompare_antisym x y).
  destruct (fcompare x y) as [[ | | ] | ]; cbn; congruence.
Qed.

(** Benefit minus penalty is at least 6 for the three records. *)
Lemma catalog_margin_low r :
  In r (map snd SYSTEMS) -> 6 <= F2Q (fsub (benefit r) (penalty r)).
Proof.
  cbn [SYSTEMS map snd In].
  intros [<- | [<- | [<- | []]]]; qcompute.
Qed.

(** The index of a catalog record does not increase with the rate. *)
Lemma catalog_index_anti r t1 t2 :
  In r (map snd SYSTEMS) ->
  (Z.abs t1 < tx_bound)%Z -> (Z.abs t2 < tx_bound)%Z -> (t1 <= t2)%Z ->
  exists v1 v2,
    compute_quality_index r t1 = Ok v1 /\
    compute_quality_index r t2 = Ok v2 /\
    fgeb v1 v2 = true.
Proof.
  intros I B1 B2 H.
  destruct (catalog_margin r I) as (m & e & C & U).
  destruct (throughput_factor_anti B1 B2 H)
    as (f1 & f2 & E1 & E2 & F1 & F2 & A & L & U1).
  pose proof fval_lit_035 as V35.
  unfold compute_quality_index. rewrite E1, E2. cbn [bind].
  apply (@round_product_anti _ f1 f2 m e C U F1 F2); lra.
Qed.

(** The index of a positive margin and a factor in [0.35, 1] is the float
    nearest to a positive multiple of 1/10000. *)
Lemma round_product_decimal (c f : float) m e :
  c = S754_finite false m e -> 6 <= F2Q c -> F2Q c <= 16 ->
  is_finite f = true -> fval (lit 0.35) <= F2Q f -> F2Q f <= 1 ->
  exists k : Z,
    (0 < k)%Z /\ py_round (fmul c f) 4 = Ok (lit (inject_Z k / 10000)).
Proof.
  intros -> L U F Lf Uf.
  pose proof fval_lit_035 as V35.
  rewrite fmul_finite by assumption.
  set (c := S754_finite false m e) in *.
  assert (T : 16 < overflow_threshold) by qcompute.
  assert (Q1 : 2 <= F2Q c * F2Q f).
  { apply Qle_trans with (6 * F2Q f); [lra | ].
    apply Qmult_le_compat_r; lra. }
  assert (QU : F2Q c * F2Q f <= 16).
  { apply Qle_trans with (F2Q c * 1); [apply Qmult_le_l; lra | lra]. }
  set (x := Q2F (xorb false (sign_of f)) (F2Q c * F2Q f)).
  assert (X : is_finite x = true) by (apply Q2F_finite_iff; rewrite Qabs_pos; lra).
  assert (S : sign_of x = false) by (apply Q2F_sign_pos; lra).
  assert (V : 1 <= F2Q x).
  { destruct (Q2F_cases (xorb false (sign_of f)) (F2Q c * F2Q f))
      as [(_ & E & _) | [(E & _) | (E & _)]];
      [ | fold x in E; rewrite E in X; discriminate
        | fold x in E; rewrite E in X; discriminate].
    fold x in E. rewrite E.
    apply Qle_trans with (sround 1); [qcompute | apply sround_mono; lra]. }
  destruct (py_round4_finite x X (Q2F_finite_dbl_max _ _ X)) as [E1 _].
  rewrite S in E1. rewrite E1.
  exists (rne (scale10 (Qabs (F2Q x)) 4)). split.
  - assert (M : (rne (inject_Z 10000) <= rne (scale10 (Qabs (F2Q x)) 4))%Z).
    { apply rne_mono. rewrite scale10_4, Qabs_pos by lra.
      change (inject_Z 10000) with 10000. lra. }
    rewrite rne_Z in M. lia.
  - reflexivity.
Qed.

(** Outside the interval from 0 to 13000 the rate plays no part. *)
Lemma index_low_rate s tx :
  (Z.abs tx < tx_bound)%Z -> (tx <= 0)%Z ->
  compute_quality_index s tx = compute_quality_index s 0.
Proof.
  intros B H. unfold compute_quality_index.
  rewrite (throughput_factor_nonpositive tx B H).
  rewrite (throughput_factor_nonpositive 0); [reflexivity | | lia].
  vm_compute; reflexivity.
Qed.

Lemma index_high_rate s tx :
  (Z.abs tx < tx_bound)%Z -> (13000 <= tx)%Z ->
  compute_quality_index s tx = compute_quality_index s 13000.
Proof.
  intros B H. unfold compute_quality_index.
  rewrite (throughput_factor_saturated tx B H).
  rewrite (throughput_factor_saturated 13000); [reflexivity | | lia].
  vm_compute; reflexivity.
Qed.

End IndexFacts.

Import IndexFacts.

Section IndexProperties.
Local Open Scope Q_scope.

(** X1. The index does not depend on the rate outside the interval from 0 to
    13000: for a rate that is not positive it is the index at 0, for a rate
    from 13000 on it is the index at 13000, whatever the record. *)
Theorem quality_index_saturates (s : ProofSystem) (tx : Z) :
  (Z.abs tx < tx_bound)%Z ->
  ((tx <= 0)%Z -> compute_quality_index s tx = compute_quality_index s 0) /\
  ((13000 <= tx)%Z ->
   compute_quality_index s tx = compute_quality_index s 13000).
Proof.
  intros B. split; intros H.
  - apply index_low_rate; assumption.
  - apply index_high_rate; assumption.
Qed.

Lemma quality_index_saturates_witness :
  (Z.abs 50000 < tx_bound)%Z /\ (13000 <= 50000)%Z /\
  compute_quality_index zama 50000 = compute_quality_index zama 13000.
Proof.
  assert (B : (Z.abs 50000 < tx_bound)%Z) by (vm_compute; reflexivity).
  assert (H : (13000 <= 50000)%Z) by lia.
  split; [exact B | ]. split; [exact H | ].
  exact (proj2 (quality_index_saturates zama 50000 B) H).
Defined.

(** X2. For each catalog record and every rate in the range, the index lies
    between the index at 13000 and the index at 0, and it is strictly
    positive. *)
Theorem catalog_quality_index_bounds (r : ProofSystem) (tx : Z) :
  In r (map snd SYSTEMS) -> (Z.abs tx < tx_bound)%Z ->
  exists lo v hi,
    compute_quality_index r 13000 = Ok lo /\
    compute_quality_index r tx = Ok v /\
    compute_quality_index r 0 = Ok hi /\
    fgtb lo (lit 0) = true /\ fleb lo v = true /\ fleb v hi = true.
Proof.
  intros I B.
  assert (B0 : (Z.abs 0 < tx_bound)%Z) by (vm_compute; reflexivity).
  assert (B1 : (Z.abs 13000 < tx_bound)%Z) by (vm_compute; reflexivity).
  assert (P : forall lo, compute_quality_index r 13000 = Ok lo ->
                         fgtb lo (lit 0) = true).
  { revert I. cbn [SYSTEMS map snd In].
    intros [<- | [<- | [<- | []]]] lo E; vm_compute in E;
      apply Ok_inj in E; subst lo; vm_compute; reflexivity. }
  destruct (Z.le_gt_cases tx 0) as [L | L].
  - destruct (catalog_index_anti r 0 13000 I B0 B1 ltac:(lia))
      as (hi & lo & Ehi & Elo & G).
    exists lo, hi, hi. rewrite (index_low_rate r tx B L).
    repeat split; try assumption; [apply (P _ Elo) | apply fgeb_fleb, G | ].
    apply fgeb_fleb.
    destruct (catalog_index_anti r 0 0 I B0 B0 ltac:(lia))
      as (v1 & v2 & E1 & E2 & G').
    rewrite Ehi in E1, E2. apply Ok_inj in E1, E2. subst. exact G'.
  - destruct (Z.le_gt_cases 13000 tx) as [U | U].
    + destruct (catalog_index_anti r 0 13000 I B0 B1 ltac:(lia))
        as (hi & lo & Ehi & Elo & G).
      exists lo, lo, hi. rewrite (index_high_rate r tx B U).
      repeat split; try assumption; [apply (P _ Elo) | | apply fgeb_fleb, G].
      apply fgeb_fleb.
      destruct (catalog_index_anti r 13000 13000 I B1 B1 ltac:(lia))
        as (v1 & v2 & E1 & E2 & G').
      rewrite Elo in E1, E2. apply Ok_inj in E1, E2. subst. exact G'.
    + destruct (catalog_index_anti r 0 tx I B0 B ltac:(lia))
        as (hi & v & Ehi & Ev & G1).
      destruct (catalog_index_anti r tx 13000 I B B1 ltac:(lia))
        as (v' & lo & Ev' & Elo & G2).
      rewrite Ev in Ev'. apply Ok_inj in Ev'. subst v'.
      exists lo, v, hi.
      repeat split; try assumption;
        [apply (P _ Elo) | apply fgeb_fleb, G2 | apply fgeb_fleb, G1].
Qed.

Lemma catalog_quality_index_bounds_witness :
  In aztec (map snd SYSTEMS) /\ (Z.abs 4000 < tx_bound)%Z /\
  exists lo v hi,
    compute_quality_index aztec 13000 = Ok lo /\
    compute_quality_index aztec 4000 = Ok v /\
    compute_quality_index aztec 0 = Ok hi /\
    fgtb lo (lit 0) = true /\ fleb lo v = true /\ fleb v hi = true.
Proof.
  assert (I : In aztec (map snd SYSTEMS)) by (cbn; auto).
  assert (B : (Z.abs 4000 < tx_bound)%Z) by (vm_compute; reflexivity).
  split; [exact I | ]. split; [exact B | ].
  exact (catalog_quality_index_bounds aztec 4000 I B).
Defined.

(** X3. For each catalog record and every rate in the range, the index is the
    float nearest to a positive multiple of 1/10000: a decimal number with
    at most four places. *)
Theorem catalog_quality_index_four_places (r : ProofSystem) (tx : Z) :
  In r (map snd SYSTEMS) -> (Z.abs tx < tx_bound)%Z ->
  exists k : Z,
    (0 < k)%Z /\
    compute_quality_index r tx = Ok (lit (inject_Z k / 10000)).
Proof.
  intros I B.
  destruct (catalog_margin r I) as (m & e & C & U).
  pose proof (catalog_margin_low r I) as L.
  assert (B0 : (Z.abs 0 < tx_bound)%Z) by (vm_compute; reflexivity).
  assert (B1 : (Z.abs 13000 < tx_bound)%Z) by (vm_compute; reflexivity).
  destruct (Z.le_gt_cases tx 13000) as [H | H].
  - destruct (@throughput_factor_anti tx 13000 B B1 H)
      as (f1 & f2 & E1 & E2 & F1 & F2 & A & L2 & U1).
    unfold compute_quality_index. rewrite E1. cbn [bind].
    apply (round_product_decimal _ f1 m e C L U F1); lra.
  - destruct (@throughput_factor_anti 13000 tx B1 B ltac:(lia))
      as (f1 & f2 & E1 & E2 & F1 & F2 & A & L2 & U1).
    unfold compute_quality_index. rewrite E2. cbn [bind].
    apply (round_product_decimal _ f2 m e C L U F2); lra.
Qed.

Lemma catalog_quality_index_four_places_witness :
  In soundness (map snd SYSTEMS) /\ (Z.abs 9999 < tx_bound)%Z /\
  exists k : Z,
    (0 < k)%Z /\
    compute_quality_index soundness 9999 = Ok (lit (inject_Z k / 10000)).
Proof.
  assert (I : In soundness (map snd SYSTEMS)) by (cbn; auto).
  assert (B : (Z.abs 9999 < tx_bound)%Z) by (vm_compute; reflexivity).
  split; [exact I | ]. split; [exact B | ].
  exact (catalog_quality_index_four_places soundness 9999 I B).
Defined.

(** X4. Strictly between 0 and 13000 the clamp does nothing: the throughput
    factor is the float [1 - tx_rate / 20000] itself, strictly between 0.35
    and 1.0.  So 0 and 13000 are the exact ends of the two flat parts. *)
Theorem throughput_factor_interior (tx : Z) :
  (0 < tx < 13000)%Z ->
  exists y,
    int_truediv tx 20000 = Ok y /\
    throughput_factor tx = Ok (fsub (lit 1) y) /\
    fltb (lit 0.35) (fsub (lit 1) y) = true /\
    fltb (fsub (lit 1) y) (lit 1.0) = true.
Proof.
  intros [L U].
  pose proof tx_bound_pos as TB.
  assert (B : (Z.abs tx < tx_bound)%Z) by lia.
  assert (Ba : (Z.abs 1 < tx_bound)%Z) by (vm_compute; reflexivity).
  assert (Bb : (Z.abs 12999 < tx_bound)%Z) by (vm_compute; reflexivity).
  destruct (throughput_factor_ok tx B) as [E F].
  destruct (int_truediv_ok tx B) as [D _]. fold (quotient tx) in D.
  pose proof (raw_proper _ F) as P.
  pose proof (Q2F_proper false 0.35) as P35. fold (lit 0.35) in P35.
  pose proof (Q2F_proper false 1.0) as P1. fold (lit 1.0) in P1.
  pose proof fval_lit_035 as V35. pose proof fval_lit_1 as V1.
  assert (Hi : fval (fsub (lit 1) (quotient tx)) < fval (lit 1.0)).
  { apply Qle_lt_trans with (fval (fsub (lit 1) (quotient 1))); [ | qcompute].
    apply raw_val_anti; [apply quotient_finite, Ba | exact F | ].
    apply quotient_mono; [exact Ba | exact B | lia]. }
  assert (Lo : fval (lit 0.35) < fval (fsub (lit 1) (quotient tx))).
  { apply Qlt_le_trans with (fval (fsub (lit 1) (quotient 12999))); [qcompute | ].
    apply raw_val_anti; [exact F | apply quotient_finite, Bb | ].
    apply quotient_mono; [exact B | exact Bb | lia]. }
  exists (quotient tx). split; [exact D | ]. split.
  - rewrite E. f_equal.
    destruct (clamp_cases _ P) as [(A & _) | [(_ & _ & R) | (A & _)]];
      [exfalso; lra | exact R | exfalso; lra].
  - split; apply fltb_proper; assumption.
Qed.

Lemma throughput_factor_interior_witness :
  (0 < 6500 < 13000)%Z /\
  exists y,
    int_truediv 6500 20000 = Ok y /\
    throughput_factor 6500 = Ok (fsub (lit 1) y) /\
    fltb (lit 0.35) (fsub (lit 1) y) = true /\
    fltb (fsub (lit 1) y) (lit 1.0) = true.
Proof.
  assert (H : (0 < 6500 < 13000)%Z) by lia.
  split; [exact H | exact (throughput_factor_interior 6500 H)].
Defined.

End IndexProperties.

(* ================================================================== *)
(** ** More about the summary *)
(* ================================================================== *)

Module DigestFacts.
Import Binary64 Py App NumericVocabulary TextVocabulary Binary64Facts.
Import SummaryFacts.
Local Open Scope string_scope.

(** *** The order on keys *)

Lemma string_leb_trans s1 :
  forall s2 s3,
    String.leb s1 s2 = true -> String.leb s2 s3 = true ->
    String.leb s1 s3 = true.
Proof.
  induction s1 as [ | a s1 IH]; intros [ | b s2] [ | c s3];
    unfold String.leb; cbn [String.compare]; try discriminate;
    try reflexivity.
  unfold Ascii.compare.
  destruct (N.compare_spec (N_of_ascii a) (N_of_ascii b)) as [E1 | L1 | G1];
    destruct (N.compare_spec (N_of_ascii b) (N_of_ascii c)) as [E2 | L2 | G2];
    destruct (N.compare_spec (N_of_ascii a) (N_of_ascii c)) as [E3 | L3 | G3];
    try discriminate; try reflexivity; try (exfalso; lia).
  apply IH.
Qed.

Lemma key_le_trans {V} (a b c : string * V) :
  key_le a b -> key_le b c -> key_le a c.
Proof. apply string_leb_trans. Qed.

(** *** [sorted_items] sorts *)

Lemma insert_item_perm {V} (x : string * V) l :
  Permutation (insert_item x l) (x :: l).
Proof.
  induction l as [ | y l IH]; cbn [insert_item]; [apply Permutation_refl | ].
  destruct (String.leb (fst x) (fst y)); [apply Permutation_refl | ].
  apply perm_trans with (y :: x :: l); [ | apply perm_swap].
  apply perm_skip, IH.
Qed.

Lemma sorted_items_perm {V} (d : dict V) : Permutation (sorted_items d) d.
Proof.
  induction d as [ | x d IH]; [apply perm_nil | ].
  change (sorted_items (x :: d)) with (insert_item x (sorted_items d)).
  apply perm_trans with (x :: sorted_items d);
    [apply insert_item_perm | apply perm_skip, IH].
Qed.

Lemma insert_item_sorted {V} (x : string * V) l :
  StronglySorted key_le l -> StronglySorted key_le (insert_item x l).
Proof.
  induction 1 as [ | y l S IH F]; cbn [insert_item].
  - constructor; constructor.
  - destruct (String.leb (fst x) (fst y)) eqn:E.
    + constructor; [constructor; assumption | ].
      constructor; [exact E | ].
      apply Forall_impl with (P := key_le y); [ | exact F].
      intros z. apply key_le_trans. exact E.
    + constructor; [exact IH | ].
      apply (Permutation_Forall (Permutation_sym (insert_item_perm x l))).
      constructor; [ | exact F].
      destruct (String.leb_total (fst x) (fst y)) as [T | T];
        [congruence | exact T].
Qed.

Lemma sorted_items_sorted {V} (d : dict V) :
  StronglySorted key_le (sorted_items d).
Proof.
  induction d as [ | x d IH]; [constructor | ].
  change (sorted_items (x :: d)) with (insert_item x (sorted_items d)).
  apply insert_item_sorted, IH.
Qed.

(** *** Two sorted lists with the same items and distinct keys are equal *)

Lemma same_key_same_item {V} (a b : string * V) l :
  NoDup (map fst l) -> In a l -> In b l -> fst a = fst b -> a = b.
Proof.
  induction l as [ | x l IH]; intros N Ia Ib E; [contradiction | ].
  cbn [map] in N. inversion N as [ | ? ? N1 N2]; subst.
  destruct Ia as [-> | Ia], Ib as [-> | Ib].
  - reflexivity.
  - exfalso. apply N1. rewrite E. apply in_map. exact Ib.
  - exfalso. apply N1. rewrite <- E. apply in_map. exact Ia.
  - apply IH; assumption.
Qed.

Lemma sorted_unique {V} (l1 : dict V) :
  forall l2,
    StronglySorted key_le l1 -> StronglySorted key_le l2 ->
    Permutation l1 l2 -> NoDup (map fst l1) -> l1 = l2.
Proof.
  induction l1 as [ | a l1 IH]; intros l2 S1 S2 P N.
  - apply Permutation_nil in P. subst. reflexivity.
  - destruct l2 as [ | b l2];
      [apply Permutation_sym, Permutation_nil in P; discriminate | ].
    inversion S1 as [ | ? ? S1' F1]; subst.
    inversion S2 as [ | ? ? S2' F2]; subst.
    assert (E : a = b).
    { assert (Ia : In a (b :: l2))
        by (apply (Permutation_in _ P); left; reflexivity).
      assert (Ib : In b (a :: l1))
        by (apply (Permutation_in _ (Permutation_sym P)); left; reflexivity).
      destruct Ia as [-> | Ia]; [reflexivity | ].
      destruct Ib as [-> | Ib]; [reflexivity | ].
      apply (@same_key_same_item V a b (a :: l1) N);
        [left; reflexivity | right; exact Ib | ].
      apply String.leb_antisym.
      - apply (proj1 (Forall_forall _ _) F1 b Ib).
      - apply (proj1 (Forall_forall _ _) F2 a Ia). }
    subst b. f_equal.
    apply IH; [exact S1' | exact S2' | | ].
    + apply (Permutation_cons_inv P).
    + cbn [map] in N. inversion N. assumption.
Qed.

Lemma sorted_items_order {V} (d1 d2 : dict V) :
  NoDup (dict_keys d1) -> Permutation d1 d2 ->
  sorted_items d1 = sorted_items d2.
Proof.
  intros N P. apply sorted_unique; try apply sorted_items_sorted.
  - apply perm_trans with d1; [apply sorted_items_perm | ].
    apply perm_trans with d2; [exact P | ].
    apply Permutation_sym, sorted_items_perm.
  - apply (Permutation_NoDup (l := map fst d1)); [ | exact N].
    apply Permutation_map, Permutation_sym, sorted_items_perm.
Qed.

(** *** [int] on a float *)

Lemma shift_floor (m : positive) (e : Z) :
  (e < 0)%Z ->
  let a := Z.shiftr (Zpos m) (- e) in
  (inject_Z a <= inject_Z (Zpos m) * pow2 e /\
   inject_Z (Zpos m) * pow2 e < inject_Z a + 1)%Q /\ (0 <= a)%Z.
Proof.
  intros N a. set (p := (2 ^ (- e))%Z).
  assert (Hp : (0 < p)%Z) by (apply Z.pow_pos_nonneg; lia).
  assert (Ea : a = (Zpos m / p)%Z)
    by (unfold a; apply Z.shiftr_div_pow2; lia).
  pose proof (Z.div_mod (Zpos m) p ltac:(lia)) as DM.
  pose proof (Z.mod_pos_bound (Zpos m) p Hp) as MB.
  rewrite <- Ea in DM.
  assert (Pq : (0 < inject_Z p)%Q).
  { rewrite <- (Zlt_Qlt 0). exact Hp. }
  assert (Ep : (pow2 e == / inject_Z p)%Q).
  { unfold p. rewrite (@pow2_inject (- e)%Z) by lia.
    rewrite <- pow2_opp, Z.opp_involutive. reflexivity. }
  assert (A1 : (inject_Z a * inject_Z p <= inject_Z (Zpos m))%Q).
  { rewrite <- inject_Z_mult, <- Zle_Qle. nia. }
  assert (A2 : (inject_Z (Zpos m) < (inject_Z a + 1) * inject_Z p)%Q).
  { change 1%Q with (inject_Z 1). rewrite <- inject_Z_plus, <- inject_Z_mult.
    rewrite <- Zlt_Qlt. nia. }
  split; [ | rewrite Ea; apply Z.div_pos; lia].
  rewrite Ep. split.
  - apply Qle_shift_div_l; assumption.
  - apply Qlt_shift_div_r; assumption.
Qed.

(** [int(x)] drops the fractional part of [x]. *)
Lemma int_of_float_spec x ts :
  int_of_float x = Ok ts ->
  is_finite x = true /\
  (inject_Z (Z.abs ts) <= Qabs (F2Q x))%Q /\
  (Qabs (F2Q x) < inject_Z (Z.abs ts) + 1)%Q /\
  ((0 <= F2Q x)%Q -> (0 <= ts)%Z) /\
  ((F2Q x <= 0)%Q -> (ts <= 0)%Z).
Proof.
  destruct x as [s | s | | s m e]; cbn [int_of_float]; intros E;
    try discriminate.
  - apply Ok_inj in E. subst ts. split; [reflexivity | ].
    change (F2Q (S754_zero s)) with 0%Q. change (Qabs 0) with 0%Q.
    change (inject_Z (Z.abs 0)) with 0%Q.
    repeat split; intros; try lia; lra.
  - apply Ok_inj in E.
    set (a := if (0 <=? e)%Z then Z.shiftl (Z.pos m) e
              else Z.shiftr (Z.pos m) (- e)) in E.
    assert (V : (0 < inject_Z (Zpos m) * pow2 e)%Q)
      by (apply Qmult_lt_0_compat; [reflexivity | apply pow2_pos]).
    assert (A : ((inject_Z a <= inject_Z (Zpos m) * pow2 e)%Q /\
                 (inject_Z (Zpos m) * pow2 e < inject_Z a + 1)%Q) /\
                (0 <= a)%Z).
    { unfold a. destruct (Z.leb_spec 0 e) as [P | N].
      - rewrite Z.shiftl_mul_pow2 by exact P.
        rewrite inject_Z_mult, (@pow2_inject e P).
        split; [split; lra | ].
        apply Z.mul_nonneg_nonneg; [lia | apply Z.pow_nonneg; lia].
      - apply shift_floor. exact N. }
    destruct A as [[A1 A2] A3].
    split; [reflexivity | ].
    assert (Ab : Z.abs ts = a) by (subst ts; destruct s; lia).
    rewrite Ab.
    assert (Av : (Qabs (F2Q (S754_finite s m e)) ==
                  inject_Z (Zpos m) * pow2 e)%Q).
    { cbn [F2Q]. destruct s; [rewrite Qabs_opp | ]; apply Qabs_pos; lra. }
    rewrite Av.
    split; [exact A1 | ]. split; [exact A2 | ].
    cbn [F2Q]. destruct s; subst ts; split; intros H; try lia; exfalso; lra.
Qed.

End DigestFacts.

Import DigestFacts.

Section SummaryProperties.
Local Open Scope string_scope.

(** X5. The digest does not depend on the order in which the keys were put in
    the dictionary: two dictionaries with the same items (and, as in every
    [dict], distinct keys) have the same hash, because the keys are sorted
    before the text is produced. *)
Theorem compute_hash_key_order (h : Host) (d1 d2 : dict value) :
  NoDup (dict_keys d1) -> Permutation d1 d2 ->
  compute_hash h d1 = compute_hash h d2.
Proof.
  intros N P. unfold compute_hash. do 2 f_equal.
  pose proof (sorted_items_order d1 d2 N P) as S.
  destruct d1 as [ | x1 l1], d2 as [ | x2 l2].
  - reflexivity.
  - apply Permutation_nil in P. discriminate.
  - apply Permutation_sym, Permutation_nil in P. discriminate.
  - unfold json_dumps. rewrite S. reflexivity.
Qed.

Lemma compute_hash_key_order_witness :
  let d1 := [("txRate", VInt 7); ("key", VStr "zama")] in
  let d2 := [("key", VStr "zama"); ("txRate", VInt 7)] in
  NoDup (dict_keys d1) /\ Permutation d1 d2 /\
  compute_hash Sample.host d1 = compute_hash Sample.host d2.
Proof.
  intros d1 d2.
  assert (N : NoDup (dict_keys d1)).
  { repeat constructor; cbn; intros H; decompose [or] H; discriminate || tauto. }
  assert (P : Permutation d1 d2) by apply perm_swap.
  split; [exact N | ]. split; [exact P | ].
  exact (compute_hash_key_order Sample.host d1 d2 N P).
Defined.

(** X6. The timestamp of a summary is the clock reading with its fractional
    part dropped: the clock was finite, the timestamp has the sign of the
    reading, and its magnitude is the integer part of the magnitude of the
    reading. *)
Theorem summary_timestamp_truncates (h : Host) (now : float)
  (system : ProofSystem) (tx : Z) (d : dict value) :
  build_summary h now system tx = Ok d ->
  exists ts,
    dict_get d "timestamp" = Ok (VInt ts) /\
    is_finite now = true /\
    (inject_Z (Z.abs ts) <= Qabs (F2Q now))%Q /\
    (Qabs (F2Q now) < inject_Z (Z.abs ts) + 1)%Q /\
    ((0 <= F2Q now)%Q -> (0 <= ts)%Z) /\
    ((F2Q now <= 0)%Q -> (ts <= 0)%Z).
Proof.
  intros B.
  destruct (build_summary_inv _ _ _ _ B) as (qi & ts & _ & T & ->).
  exists ts. split; [reflexivity | ].
  apply int_of_float_spec. exact T.
Qed.

Lemma summary_timestamp_truncates_witness :
  exists d ts,
    build_summary Sample.host Sample.noon_later zama 100 = Ok d /\
    dict_get d "timestamp" = Ok (VInt ts) /\
    (inject_Z (Z.abs ts) <= Qabs (F2Q Sample.noon_later))%Q /\
    (Qabs (F2Q Sample.noon_later) < inject_Z (Z.abs ts) + 1)%Q.
Proof.
  eassert (B : build_summary Sample.host Sample.noon_later zama 100 = Ok _)
    by (vm_compute; reflexivity).
  destruct (summary_timestamp_truncates _ _ _ _ _ B)
    as (ts & G & F & L & U & _).
  eexists. exists ts.
  split; [exact B | ]. split; [exact G | ]. split; [exact L | exact U].
Defined.

End SummaryProperties.

(* ================================================================== *)
(** ** More about the JSON text *)
(* ================================================================== *)

Module JsonFacts.
Import Binary64 Py App TextVocabulary.
Local Open Scope string_scope.

Lemma all_chars_app p a b :
  all_chars p (a ++ b) = all_chars p a && all_chars p b.
Proof.
  induction a as [ | c a IH]; cbn; [reflexivity | ].
  rewrite IH. apply andb_assoc.
Qed.

(** An ASCII byte is a character of its own. *)
Lemma decode_step_ascii c r :
  is_ascii c = true -> decode_step c r = (N_of_ascii c, 0%nat).
Proof.
  unfold is_ascii. intros A. apply N.ltb_lt in A. unfold decode_step.
  assert (X : (192 <=? N_of_ascii c)%N = false) by (apply N.leb_gt; lia).
  assert (Y : (224 <=? N_of_ascii c)%N = false) by (apply N.leb_gt; lia).
  assert (Z : (240 <=? N_of_ascii c)%N = false) by (apply N.leb_gt; lia).
  rewrite X, Y, Z. cbn [andb].
  destruct r as [ | c2 [ | c3 [ | c4 r]]];
    repeat match goal with
           | |- context [continuation ?x] => destruct (continuation x)
           end; reflexivity.
Qed.

Lemma escape_ascii_char_printable c :
  is_ascii c = true ->
  all_chars is_printable (escape_ascii_char (N_of_ascii c) c) = true.
Proof.
  destruct c as [[] [] [] [] [] [] [] []]; intros A;
    try discriminate A; vm_compute; reflexivity.
Qed.

Lemma escape_ascii_char_verbatim c :
  is_verbatim c = true ->
  escape_ascii_char (N_of_ascii c) c = String c EmptyString.
Proof.
  destruct c as [[] [] [] [] [] [] [] []]; intros A;
    try discriminate A; vm_compute; reflexivity.
Qed.

Lemma verbatim_ascii c : is_verbatim c = true -> is_ascii c = true.
Proof.
  destruct c as [[] [] [] [] [] [] [] []]; intros A;
    try discriminate A; reflexivity.
Qed.

Lemma escape_ascii_printable s :
  all_chars is_ascii s = true ->
  all_chars is_printable (escape_ascii s) = true.
Proof.
  unfold escape_ascii. induction s as [ | c r IH]; [reflexivity | ].
  cbn [all_chars escape_ascii_from]. intros H.
  apply andb_true_iff in H. destruct H as [A R].
  rewrite (decode_step_ascii c r A).
  assert (L : (N_of_ascii c <? 128)%N = true) by exact A.
  rewrite L, all_chars_app, (escape_ascii_char_printable c A), (IH R).
  reflexivity.
Qed.

Lemma escape_ascii_verbatim s :
  all_chars is_verbatim s = true -> escape_ascii s = s.
Proof.
  unfold escape_ascii. induction s as [ | c r IH]; [reflexivity | ].
  cbn [all_chars escape_ascii_from]. intros H.
  apply andb_true_iff in H. destruct H as [A R].
  pose proof (verbatim_ascii c A) as B.
  rewrite (decode_step_ascii c r B).
  assert (L : (N_of_ascii c <? 128)%N = true) by exact B.
  rewrite L, (escape_ascii_char_verbatim c A), (IH R). reflexivity.
Qed.

End JsonFacts.

Import JsonFacts.

Section JsonProperties.
Local Open Scope string_scope.

(** X7. The JSON form of an ASCII string is printable: whatever control
    characters, quotes or backslashes the string holds, the text is made of
    characters from the space to the tilde only.  A string of printable
    characters other than the quote and the backslash is written as it is,
    between quotes; the four text fields of the three catalog records are
    such strings. *)
Theorem json_string_printable (s : string) :
  (all_chars is_ascii s = true ->
   all_chars is_printable (encode_basestring_ascii s) = true) /\
  (all_chars is_verbatim s = true ->
   encode_basestring_ascii s = quote ++ s ++ quote) /\
  (forall r, In r (map snd SYSTEMS) ->
     In s [key r; name r; family r; description r] ->
     all_chars is_verbatim s = true).
Proof.
  unfold encode_basestring_ascii. split; [ | split].
  - intros H. rewrite !all_chars_app, (escape_ascii_printable s H).
    reflexivity.
  - intros H. rewrite (escape_ascii_verbatim s H). reflexivity.
  - cbn [SYSTEMS map snd In].
    intros r [<- | [<- | [<- | []]]] [<- | [<- | [<- | [<- | []]]]];
      vm_compute; reflexivity.
Qed.

Lemma json_string_printable_witness :
  let s := "tab" ++ String (ascii_of_nat 9) "quote" ++ quote in
  all_chars is_ascii s = true /\
  all_chars is_printable (encode_basestring_ascii s) = true.
Proof.
  intros s.
  assert (A : all_chars is_ascii s = true) by (vm_compute; reflexivity).
  split; [exact A | exact (proj1 (json_string_printable s) A)].
Defined.

End JsonProperties.

(* ================================================================== *)
(** ** More about the command line *)
(* ================================================================== *)

Module CommandLineFacts.
Import Binary64 Py App TextVocabulary ParserFacts.
Local Open Scope string_scope.

Section CommandLine.
Variable h : Host.

Lemma last_cons_default (v d : string) l : last (v :: l) d = last l v.
Proof.
  revert v d. induction l as [ | a l IH]; intros v d; [reflexivity | ].
  change (last (v :: a :: l) d) with (last (a :: l) d).
  rewrite (IH a d). symmetry. apply IH.
Qed.

Lemma take_system_known flag v st :
  known_system v ->
  take_system flag v st =
  inl {| st_tx_rate := st_tx_rate st; st_system := v;
         st_json := st_json st; st_extras := st_extras st |}.
Proof.
  intros K. unfold take_system.
  assert (X : existsb (String.eqb v) system_choices = true).
  { apply existsb_exists. exists v. split; [exact K | apply String.eqb_refl]. }
  rewrite X. reflexivity.
Qed.

(** One component, whatever follows it. *)
Lemma parse_loop_component w more st :
  plain w ->
  parse_loop h (render_word w ++ more) false st =
  match w with
  | Pos s =>
      match take_positional h s st with
      | inl st' => parse_loop h more false st'
      | inr e => Rejected e
      end
  | SystemOpt v | SystemEq v =>
      match take_system "--system" v st with
      | inl st' => parse_loop h more false st'
      | inr e => Rejected e
      end
  | JsonFlag => parse_loop h more false (set_json st)
  end.
Proof.
  intros P. destruct w as [s | v | v | ]; cbn [render_word app].
  - destruct (is_argument_class _ P) as [A B].
    cbn [parse_loop]. rewrite A, B. reflexivity.
  - cbn [parse_loop]. change ("--system" =? "--") with false.
    rewrite parse_optional_system. cbn iota. cbn [plain] in P. rewrite P.
    reflexivity.
  - cbn [parse_loop]. change ("--system=" ++ v =? "--") with false.
    rewrite parse_optional_system_eq. reflexivity.
  - reflexivity.
Qed.

Lemma render_cons w ws more :
  (render (w :: ws) ++ more = render_word w ++ (render ws ++ more))%list.
Proof. unfold render. cbn [flat_map]. symmetry. apply app_assoc. Qed.

(** The components that follow the rate, when their [--system] values are
    known: the options are recorded, the positional words are left over. *)
Lemma parse_loop_after_rate ws more :
  Forall plain ws -> Forall known_system (system_values ws) ->
  forall st n, st_tx_rate st = Some n ->
  parse_loop h (render ws ++ more) false st =
  parse_loop h more false
    {| st_tx_rate := Some n;
       st_system := last (system_values ws) (st_system st);
       st_json := st_json st || json_given ws;
       st_extras := st_extras st ++ positionals ws |}.
Proof.
  induction 1 as [ | w ws P _ IH]; intros K st n T.
  - cbn. rewrite orb_false_r, app_nil_r. destruct st; cbn in *. subst.
    reflexivity.
  - rewrite render_cons, (parse_loop_component w _ st P).
    destruct w as [s | v | v | ].
    + unfold take_positional. rewrite T.
      rewrite (IH K _ n) by reflexivity.
      cbn [st_system st_json st_extras system_values flat_map app
           json_given existsb positionals orb].
      rewrite <- app_assoc. reflexivity.
    + cbn [system_values flat_map app] in K. inversion K as [ | ? ? K1 K2]; subst.
      rewrite (take_system_known "--system" v st K1).
      rewrite (IH K2 _ n) by exact T.
      cbn [st_system st_json st_extras system_values flat_map app
           json_given existsb positionals orb].
      rewrite last_cons_default. reflexivity.
    + cbn [system_values flat_map app] in K. inversion K as [ | ? ? K1 K2]; subst.
      rewrite (take_system_known "--system" v st K1).
      rewrite (IH K2 _ n) by exact T.
      cbn [st_system st_json st_extras system_values flat_map app
           json_given existsb positionals orb].
      rewrite last_cons_default. reflexivity.
    + rewrite (IH K _ n) by exact T.
      cbn [st_system st_json st_extras system_values flat_map app
           json_given existsb positionals orb set_json].
      rewrite orb_true_r. reflexivity.
Qed.

(** The components up to the rate and after it. *)
Lemma parse_loop_with_rate ws more :
  Forall plain ws -> Forall known_system (system_values ws) ->
  forall st s n,
    st_tx_rate st = None ->
    first_positional ws = Some s -> int_of_str h s = Some n ->
    parse_loop h (render ws ++ more) false st =
    parse_loop h more false
      {| st_tx_rate := Some n;
         st_system := last (system_values ws) (st_system st);
         st_json := st_json st || json_given ws;
         st_extras := st_extras st ++ tl (positionals ws) |}.
Proof.
  induction 1 as [ | w ws P PS IH]; intros K st s n T F I; [discriminate | ].
  rewrite render_cons, (parse_loop_component w _ st P).
  destruct w as [s' | v | v | ]; cbn [first_positional] in F.
  - injection F as ->. unfold take_positional. rewrite T, I.
    rewrite (parse_loop_after_rate ws more PS K _ n) by reflexivity.
    reflexivity.
  - cbn [system_values flat_map app] in K. inversion K as [ | ? ? K1 K2]; subst.
    rewrite (take_system_known "--system" v st K1).
    rewrite (IH K2 _ s n) by assumption.
    cbn [st_system st_json st_extras system_values flat_map app
         json_given existsb positionals orb].
    rewrite last_cons_default. reflexivity.
  - cbn [system_values flat_map app] in K. inversion K as [ | ? ? K1 K2]; subst.
    rewrite (take_system_known "--system" v st K1).
    rewrite (IH K2 _ s n) by assumption.
    cbn [st_system st_json st_extras system_values flat_map app
         json_given existsb positionals orb].
    rewrite last_cons_default. reflexivity.
  - rewrite (IH K _ s n) by assumption.
    cbn [st_system st_json st_extras system_values flat_map app
         json_given existsb positionals orb set_json].
    rewrite orb_true_r. reflexivity.
Qed.


Lemma first_positional_hd ws :
  first_positional ws = hd_error (positionals ws).
Proof.
  induction ws as [ | [s | v | v | ] ws IH]; cbn; auto.
Qed.

(** The result on a whole command line whose first positional word is an
    integer and whose [--system] values are known. *)
Lemma parse_plain ws s n :
  Forall plain ws -> Forall known_system (system_values ws) ->
  first_positional ws = Some s -> int_of_str h s = Some n ->
  parse h (render ws) =
  match tl (positionals ws) with
  | [] => Parsed {| tx_rate := n; system := chosen_system ws;
                    json := json_given ws |}
  | extras => Rejected (UnrecognizedArguments extras)
  end.
Proof.
  intros P K F I. unfold parse.
  rewrite <- (app_nil_r (render ws)).
  rewrite (parse_loop_with_rate ws [] P K initial_pstate s n eq_refl F I).
  cbn [parse_loop finish st_tx_rate st_extras st_system st_json
       initial_pstate app orb].
  fold (chosen_system ws). destruct (tl (positionals ws)); reflexivity.
Qed.


(** What the parser accepts has a system of the catalog, whatever the
    words. *)
Lemma take_positional_system arg st st' :
  take_positional h arg st = inl st' -> st_system st' = st_system st.
Proof.
  unfold take_positional.
  destruct (st_tx_rate st); [ | destruct (int_of_str h arg)];
    intros E; inversion E; reflexivity.
Qed.

Lemma take_system_choice flag v st st' :
  take_system flag v st = inl st' -> known_system (st_system st').
Proof.
  unfold take_system.
  destruct (existsb (String.eqb v) system_choices) eqn:E; intros H;
    inversion H; subst; cbn.
  apply existsb_exists in E. destruct E as (x & I & E).
  apply String.eqb_eq in E. subst. exact I.
Qed.

Lemma parse_loop_system_choice n :
  forall args ad st ns,
    (List.length args <= n)%nat ->
    known_system (st_system st) ->
    parse_loop h args ad st = Parsed ns -> known_system (system ns).
Proof.
  induction n as [ | n IH]; intros args ad st ns L K E.
  - destruct args; [ | cbn in L; lia].
    cbn in E. unfold finish in E.
    destruct (st_tx_rate st); [ | discriminate].
    destruct (st_extras st); [ | discriminate].
    injection E as <-. exact K.
  - destruct args as [ | arg rest].
    + cbn in E. unfold finish in E.
      destruct (st_tx_rate st); [ | discriminate].
      destruct (st_extras st); [ | discriminate].
      injection E as <-. exact K.
    + cbn [List.length] in L. cbn [parse_loop] in E.
      destruct ad.
      * destruct (take_positional h arg st) as [st' | e] eqn:T; [ | discriminate].
        apply (IH rest true st' ns); [lia | | exact E].
        rewrite (take_positional_system _ _ _ T). exact K.
      * destruct (arg =? "--").
        { apply (IH rest true st ns); [lia | exact K | exact E]. }
        destruct (parse_optional option_table arg)
          as [ | flag o explicit | | candidates].
        -- destruct (take_positional h arg st) as [st' | e] eqn:T; [ | discriminate].
           apply (IH rest false st' ns); [lia | | exact E].
           rewrite (take_positional_system _ _ _ T). exact K.
        -- destruct o.
           ++ destruct explicit as [explicit | ]; [ | discriminate].
              destruct (negb (is_long flag) && nonempty explicit && all_h explicit);
                discriminate.
           ++ destruct explicit as [explicit | ].
              ** destruct (take_system flag explicit st) as [st' | e] eqn:T;
                   [ | discriminate].
                 apply (IH rest false st' ns); [lia | | exact E].
                 apply (take_system_choice _ _ _ _ T).
              ** destruct rest as [ | value rest']; [discriminate | ].
                 destruct (is_argument option_table value); [ | discriminate].
                 destruct (take_system flag value st) as [st' | e] eqn:T;
                   [ | discriminate].
                 apply (IH rest' false st' ns); [cbn in L; lia | | exact E].
                 apply (take_system_choice _ _ _ _ T).
           ++ destruct explicit as [explicit | ]; [discriminate | ].
              apply (IH rest false (set_json st) ns); [lia | exact K | exact E].
        -- apply (IH rest false (add_extra arg st) ns); [lia | exact K | exact E].
        -- discriminate.
Qed.

Lemma parsed_system_known argv ns :
  parse h argv = Parsed ns -> known_system (system ns).
Proof.
  intros E.
  apply (parse_loop_system_choice (List.length argv) argv false initial_pstate ns
           (le_n _)); [ | exact E].
  cbn. auto.
Qed.

Lemma known_system_lookup k :
  known_system k -> exists r, lookup_system k = Ok r /\ key r = k.
Proof.
  unfold known_system. cbn.
  intros [<- | [<- | [<- | []]]]; eexists; split; reflexivity.
Qed.

(** An exception other than [SystemExit] raised while the summary is built
    ends the process with a traceback. *)
Lemma main_crash argv now ns sys e :
  parse h argv = Parsed ns ->
  lookup_system (system ns) = Ok sys ->
  build_summary h now sys (tx_rate ns) = Raise e ->
  (forall c, e <> SystemExit c) ->
  run_main h argv now = crash h e.
Proof.
  intros Hp Hs Hb Hn. unfold run_main, run, main, parse_args. rewrite Hp.
  unfold io_bind, io_ret, lift. rewrite Hs, Hb.
  destruct e; try reflexivity. exfalso. apply (Hn code). reflexivity.
Qed.


Lemma int_of_float_raises now e :
  int_of_float now = Raise e -> forall c, e <> SystemExit c.
Proof.
  destruct now; cbn; intros E; inversion E; intros c; discriminate.
Qed.

(** A minus sign followed by digits is not taken for an option: none of the
    options of the parser looks like a negative number. *)
Lemma digit_cases c :
  is_digit c = true ->
  In c ["0"; "1"; "2"; "3"; "4"; "5"; "6"; "7"; "8"; "9"]%char.
Proof.
  destruct c as [[] [] [] [] [] [] [] []]; intros H;
    try (vm_compute in H; discriminate H); cbn; tauto.
Qed.

Lemma digits_without c r :
  is_digit c = false -> all_digits r = true -> split_at c r = None.
Proof.
  intros N. induction r as [ | a r IH]; [reflexivity | ].
  cbn [all_digits split_at]. intros H. apply andb_true_iff in H.
  destruct H as [D A].
  destruct (Ascii.eqb_spec a c) as [-> | _]; [congruence | ].
  rewrite (IH A). reflexivity.
Qed.

Lemma negative_number_is_argument d :
  nonempty d = true -> all_digits d = true ->
  is_argument option_table (String "-" d) = true.
Proof.
  destruct d as [ | c r]; [discriminate | ]. intros _ H.
  cbn [all_digits] in H. apply andb_true_iff in H. destruct H as [D A].
  pose proof (digits_without "=" r eq_refl A) as S.
  pose proof (digit_cases c D) as C. cbn [In] in C.
  unfold is_argument, parse_optional, option_tuples, split_eq,
    looks_negative_number.
  cbn [split_at all_digits nonempty].
  repeat (destruct C as [<- | C];
          [cbn; rewrite ?S, ?A; cbn; reflexivity | ]).
  destruct C.
Qed.

(** The ways a run can end. *)
Lemma run_main_cases argv now :
  (exists e, parse h argv = Rejected e /\
             run_main h argv now = usage_failure h e) \/
  (parse h argv = HelpExit /\
   run_main h argv now = {| out := format_help h; err := ""; status := 0 |}) \/
  (exists ns sys,
     parse h argv = Parsed ns /\ lookup_system (system ns) = Ok sys /\
     ((exists e, build_summary h now sys (tx_rate ns) = Raise e /\
                 (forall c, e <> SystemExit c) /\
                 run_main h argv now = crash h e) \/
      (exists d text, build_summary h now sys (tx_rate ns) = Ok d /\
                      run_main h argv now =
                      {| out := text; err := ""; status := 0 |}))).
Proof.
  destruct (parse h argv) as [ns | | e] eqn:E.
  - right. right.
    destruct (known_system_lookup (system ns) (parsed_system_known argv ns E))
      as (sys & Hs & _).
    exists ns, sys. split; [reflexivity | ]. split; [exact Hs | ].
    destruct (compute_quality_index sys (tx_rate ns)) as [qi | e] eqn:Q.
    + destruct (int_of_float now) as [ts | e] eqn:T.
      * right. destruct (json ns) eqn:J.
        -- eexists. eexists. split.
           ++ rewrite build_summary_eq, Q. cbn [bind]. rewrite T. reflexivity.
           ++ apply (@main_json h argv now ns sys qi ts E Hs Q T J).
        -- eexists. eexists. split.
           ++ rewrite build_summary_eq, Q. cbn [bind]. rewrite T. reflexivity.
           ++ apply (@main_human h argv now ns sys qi ts E Hs Q T J).
      * left. exists e.
        assert (B : build_summary h now sys (tx_rate ns) = Raise e).
        { rewrite build_summary_eq, Q. cbn [bind]. rewrite T. reflexivity. }
        pose proof (int_of_float_raises now e T) as N.
        split; [exact B | ]. split; [exact N | ].
        apply (main_crash argv now ns sys e E Hs B N).
    + left. exists e.
      assert (B : build_summary h now sys (tx_rate ns) = Raise e).
      { rewrite build_summary_eq, Q. reflexivity. }
      assert (N : forall c, e <> SystemExit c).
      { destruct (Z.lt_ge_cases (Z.abs (tx_rate ns)) tx_bound) as [I | O].
        - destruct (@compute_quality_index_total sys (tx_rate ns) I) as [v V].
          rewrite V in Q. discriminate.
        - rewrite (@compute_quality_index_overflow sys (tx_rate ns) O) in Q.
          injection Q as <-. intros c. discriminate. }
      split; [exact B | ]. split; [exact N | ].
      apply (main_crash argv now ns sys e E Hs B N).
  - right. left. split; [reflexivity | ].
    apply (@help_outcome h argv now E).
  - left. exists e. split; [reflexivity | ].
    apply (@rejected_outcome h argv now e E).
Qed.

End CommandLine.

End CommandLineFacts.

Import CommandLineFacts.

(* ================================================================== *)
(** ** Properties of the command line and of a run *)
(* ================================================================== *)

Section CommandLineProperties.
Local Open Scope string_scope.



(** X9. A second positional word is never accepted: when the first one is an
    integer and the [--system] values are known, the command line is
    rejected for the positional words after the first, which are reported
    together once all words have been read. *)
Theorem surplus_positionals_rejected (h : Host) (ws : list word)
  (s : string) (n : Z) (e : string) (es : list string) :
  Forall plain ws ->
  Forall known_system (system_values ws) ->
  positionals ws = s :: e :: es ->
  int_of_str h s = Some n ->
  parse h (render ws) = Rejected (UnrecognizedArguments (e :: es)).
Proof.
  intros P K Q I.
  assert (F : first_positional ws = Some s)
    by (rewrite first_positional_hd, Q; reflexivity).
  rewrite (parse_plain h ws s n P K F I), Q. reflexivity.
Qed.

Lemma surplus_positionals_rejected_witness :
  let ws := [Pos "5000"; JsonFlag; Pos "zama"; Pos "7"] in
  Forall plain ws /\
  parse Sample.host (render ws) =
  Rejected (UnrecognizedArguments ["zama"; "7"]).
Proof.
  intros ws.
  assert (P : Forall plain ws) by (repeat constructor).
  split; [exact P | ].
  apply (surplus_positionals_rejected Sample.host ws "5000" 5000 "zama" ["7"] P).
  - constructor.
  - reflexivity.
  - reflexivity.
Defined.







(** X13. A minus sign followed by digits is read as the rate, not as an option:
    a negative rate can be given as it is. *)
Theorem negative_rate_word (h : Host) (d : string) :
  nonempty d = true -> all_digits d = true ->
  plain (Pos (String "-" d)) /\
  parse h [String "-" d] =
  match int_of_str h (String "-" d) with
  | Some z => Parsed {| tx_rate := z; system := "aztec"; json := false |}
  | None => Rejected (InvalidInt "tx_rate" (String "-" d))
  end.
Proof.
  intros N D. pose proof (negative_number_is_argument d N D) as A.
  split; [exact A | ].
  destruct (is_argument_class _ A) as [B C].
  unfold parse. cbn [parse_loop]. rewrite B, C.
  unfold take_positional. cbn [st_tx_rate initial_pstate].
  destruct (int_of_str h (String "-" d)); reflexivity.
Qed.

Lemma negative_rate_word_witness :
  nonempty "250" = true /\ all_digits "250" = true /\
  parse Sample.host ["-250"] =
  Parsed {| tx_rate := -250; system := "aztec"; json := false |}.
Proof.
  assert (N : nonempty "250" = true) by reflexivity.
  assert (D : all_digits "250" = true) by reflexivity.
  split; [exact N | ]. split; [exact D | ].
  exact (proj2 (negative_rate_word Sample.host "250" N D)).
Defined.



(** X15. A run never leaves a partial result: when the exit status is 0 nothing
    was written to standard error, and when it is not 0 nothing was written
    to standard output.  This holds for every command line and every clock
    reading. *)
Theorem no_partial_output (h : Host) (argv : list string) (now : float) :
  (status (run_main h argv now) = 0%Z -> err (run_main h argv now) = "") /\
  (status (run_main h argv now) <> 0%Z -> out (run_main h argv now) = "").
Proof.
  destruct (run_main_cases h argv now)
    as [(e & _ & R) | [(_ & R) | (ns & sys & _ & _ & C)]].
  - rewrite R. cbn. split; [discriminate | reflexivity].
  - rewrite R. cbn. split; [reflexivity | intros N; now destruct N].
  - destruct C as [(e & _ & _ & R) | (d & text & _ & R)]; rewrite R; cbn.
    + split; [discriminate | reflexivity].
    + split; [reflexivity | intros N; now destruct N].
Qed.



End CommandLineProperties.
